(** * hugo-frontmatter-toolbox: condition evaluator and frontmatter codec

    A shallow embedding of [internal/helpers/helpers.go]: the condition
    language behind [--if] ([EvaluateConditions], [CheckCondition],
    [flattenToStrings]), the frontmatter splitter ([SplitFrontmatter]) and
    the encoder ([MarshalFrontmatter] with its YAML helpers).

    Go strings are byte sequences, so they are Rocq [string]s (one [ascii]
    per byte).  A Go map is a [gmap string Value]; where the encoder copies
    and mutates maps, the maps live in a heap of references.  A run-time
    panic (index out of range) is the result [None]. *)

From Stdlib Require Import ZArith String Ascii List Lia DecimalString.
From stdpp Require Import gmap strings list sorting.

Local Open Scope Z_scope.

#[local] Set Warnings "-register-all,-clear-no-such-hyp".

(* stdpp keeps [String.append] folded; here it computes on constructors. *)
#[local] Arguments String.append !_ _ / : simpl nomatch.

(** ** Bytes and string slicing *)

Definition byte (n : nat) : ascii := ascii_of_nat n.

Definition ofBytes (l : list nat) : string :=
  fold_right (fun n s => String (byte n) s) "" l.

(** [s[:n]] *)
Fixpoint sliceTo (n : nat) (s : string) : string :=
  match n, s with
  | S n', String c s' => String c (sliceTo n' s')
  | _, _ => ""
  end.

(** [s[n:]] *)
Fixpoint sliceFrom (n : nat) (s : string) : string :=
  match n, s with
  | S n', String _ s' => sliceFrom n' s'
  | _, _ => s
  end.

Fixpoint revOnto (s acc : string) : string :=
  match s with
  | "" => acc
  | String c s' => revOnto s' (String c acc)
  end.

Definition reverse (s : string) : string := revOnto s "".

Fixpoint anyByte (p : ascii -> bool) (s : string) : bool :=
  match s with
  | "" => false
  | String c s' => p c || anyByte p s'
  end.

Definition inSet (set : string) (c : ascii) : bool :=
  anyByte (Ascii.eqb c) set.

(** ** Package [strings] of the Go library

    The functions the source calls, following the library's documented
    behaviour.  Separators and cut sets are non-empty ASCII literals at every
    call site; the library's special cases for an empty separator (explode
    into UTF-8 sequences) are outside the model. *)
Module strings.

Fixpoint HasPrefix (s prefix : string) : bool :=
  match prefix, s with
  | "", _ => true
  | String p prefix', String c s' =>
      if Ascii.eqb p c then HasPrefix s' prefix' else false
  | String _ _, "" => false
  end.

(** [Index] returns the position of the first instance of [substr], and
    -1 (here [None]) when there is none. *)
Fixpoint Index (s substr : string) : option nat :=
  if HasPrefix s substr then Some 0%nat
  else match s with
       | "" => None
       | String _ s' => S <$> Index s' substr
       end.

Definition Contains (s substr : string) : bool :=
  match Index s substr with Some _ => true | None => false end.

(** The loop of the library's [genSplit]: cut at the first separator, at
    most [n] times; the rest of the string is the last piece. *)
Fixpoint genSplit (n : nat) (s sep : string) : list string :=
  match n with
  | O => [s]
  | S n' =>
      match Index s sep with
      | None => [s]
      | Some m =>
          sliceTo m s :: genSplit n' (sliceFrom (m + String.length sep) s) sep
      end
  end.

(** [SplitN(s, sep, n)]: no piece for [n = 0], at most [n] pieces for
    [n > 0], every piece for [n < 0].  The library clamps the number of
    pieces to [len(s) + 1]. *)
Definition SplitN (s sep : string) (n : Z) : list string :=
  if n =? 0 then []
  else if n <? 0 then genSplit (String.length s) s sep
  else genSplit (Nat.min (Z.to_nat (n - 1)) (String.length s)) s sep.

Definition Split (s sep : string) : list string := SplitN s sep (-1).

Fixpoint Join (elems : list string) (sep : string) : string :=
  match elems with
  | [] => ""
  | [e] => e
  | e :: rest => e +:+ sep +:+ Join rest sep
  end.

(** Non-overlapping instances of [old], found left to right, are replaced
    by [new]. *)
Definition ReplaceAll (s old new : string) : string :=
  Join (Split s old) new.

(** The encodings of the runes for which [unicode.IsSpace] holds: the six
    ASCII ones, U+0085, U+00A0, U+1680, U+2000..U+200A, U+2028, U+2029,
    U+202F, U+205F and U+3000. *)
Definition spaces : list string :=
  map ofBytes
    [ [9]; [10]; [11]; [12]; [13]; [32];
      [194; 133]; [194; 160]; [225; 154; 128];
      [226; 128; 128]; [226; 128; 129]; [226; 128; 130]; [226; 128; 131];
      [226; 128; 132]; [226; 128; 133]; [226; 128; 134]; [226; 128; 135];
      [226; 128; 136]; [226; 128; 137]; [226; 128; 138];
      [226; 128; 168]; [226; 128; 169]; [226; 128; 175];
      [226; 129; 159]; [227; 128; 128] ]%nat.

(** The number of bytes of the white-space rune [s] starts with, 0 when it
    starts with none. *)
Definition leadingSpace (seqs : list string) (s : string) : nat :=
  match filter (fun q => Is_true (HasPrefix s q)) seqs with
  | q :: _ => String.length q
  | [] => 0%nat
  end.

Fixpoint trimLeftSeqs (fuel : nat) (seqs : list string) (s : string) : string :=
  match fuel with
  | O => s
  | S fuel' =>
      match leadingSpace seqs s with
      | O => s
      | n => trimLeftSeqs fuel' seqs (sliceFrom n s)
      end
  end.

(** [TrimSpace]: leading and trailing white-space runes removed.  The
    trailing scan decodes the last rune, which for these encodings is a
    suffix test. *)
Definition TrimSpace (s : string) : string :=
  let l := trimLeftSeqs (String.length s) spaces s in
  reverse (trimLeftSeqs (String.length l) (map reverse spaces) (reverse l)).

Fixpoint trimLeftBytes (cutset s : string) : string :=
  match s with
  | "" => ""
  | String c s' => if inSet cutset c then trimLeftBytes cutset s' else s
  end.

(** [Trim] for an ASCII cut set: every leading and trailing byte that is
    in the set is removed. *)
Definition Trim (s cutset : string) : string :=
  reverse (trimLeftBytes cutset (reverse (trimLeftBytes cutset s))).

End strings.

(** ** Values of a frontmatter map

    The dynamic types a [map[string]interface{}] holds after decoding or
    after [ParseSet].  A [float64], a [time.Time] and values of any further
    type (nested tables, the local dates of go-toml) are carried as the texts
    the libraries print for them: the program only ever prints them. *)
Inductive Value : Type :=
  | VNil                                   (* nil *)
  | VString (s : string)                   (* string *)
  | VBool (b : bool)                       (* bool *)
  | VInt (n : Z)                           (* int *)
  | VInt64 (n : Z)                         (* int64 *)
  | VFloat64 (shown : string)              (* float64, with its %v text *)
  | VTime (shown rfc3339 : string)         (* time.Time: %v text, RFC 3339 text *)
  | VSlice (items : list Value)            (* []interface{} *)
  | VStrings (items : list string)         (* []string *)
  | VOther (shown : string).               (* any other type, with its %v text *)

Definition fmtInt (n : Z) : string := NilZero.string_of_int (Z.to_int n).

Definition fmtBool (b : bool) : string := if b then "true" else "false".

(** [fmt.Sprintf("%v", v)] *)
Fixpoint fmtV (v : Value) : string :=
  match v with
  | VNil => "<nil>"
  | VString s => s
  | VBool b => fmtBool b
  | VInt n | VInt64 n => fmtInt n
  | VFloat64 shown => shown
  | VTime shown _ => shown
  | VSlice items => "[" +:+ strings.Join (map fmtV items) " " +:+ "]"
  | VStrings items => "[" +:+ strings.Join items " " +:+ "]"
  | VOther shown => shown
  end.

(** ** Package [time]: parsing with the layout "2006-01-02" *)

(** The instants [time.Parse("2006-01-02", _)] can return, and the zero
    [time.Time] (January 1 of year 1): midnight UTC of a calendar day. *)
Record Time : Type := Date { year : Z; month : Z; day : Z }.

Definition zeroTime : Time := Date 1 1 1.

Definition isDigit (c : ascii) : bool :=
  (48 <=? nat_of_ascii c)%nat && (nat_of_ascii c <=? 57)%nat.

Definition digit (c : ascii) : Z := Z.of_nat (nat_of_ascii c) - 48.

Definition isLeap (y : Z) : bool :=
  (y mod 4 =? 0) && (negb (y mod 100 =? 0) || (y mod 400 =? 0)).

Definition daysIn (m y : Z) : Z :=
  if m =? 2 then (if isLeap y then 29 else 28)
  else if (m =? 4) || (m =? 6) || (m =? 9) || (m =? 11) then 30
  else 31.

(** Four digits, '-', two digits, '-', two digits and nothing else; the
    month within 1..12 and the day within the month. *)
Definition time_Parse (value : string) : option Time :=
  match value with
  | String y1 (String y2 (String y3 (String y4 (String sep1
      (String m1 (String m2 (String sep2 (String d1 (String d2 ""))))))))) =>
      if forallb isDigit [y1; y2; y3; y4; m1; m2; d1; d2]
         && Ascii.eqb sep1 "-" && Ascii.eqb sep2 "-"
      then
        let y := 1000 * digit y1 + 100 * digit y2 + 10 * digit y3 + digit y4 in
        let m := 10 * digit m1 + digit m2 in
        let d := 10 * digit d1 + digit d2 in
        if (1 <=? m) && (m <=? 12) && (1 <=? d) && (d <=? daysIn m y)
        then Some (Date y m d) else None
      else None
  | _ => None
  end.

(** [t.Before(u)] *)
Definition Before (t u : Time) : bool :=
  (year t <? year u)
  || ((year t =? year u)
      && ((month t <? month u) || ((month t =? month u) && (day t <? day u)))).

(** ** The condition evaluator *)

(** The cut set of the membership check: a double and a single quote. *)
Definition quoteChars : string := String (byte 34) "'".

(** flattenToStrings converts a slice of interfaces to a slice of strings. *)
Definition flattenToStrings (v : Value) : list string :=
  match v with
  | VNil => []
  | VSlice arr => map fmtV arr
  | VStrings arr => arr
  | _ => [fmtV v]
  end.

(** The [for _, item := range flat] loop of the membership check. *)
Fixpoint hasItem (flat : list string) (rawNeedle : string) : bool :=
  match flat with
  | [] => false
  | item :: rest => if String.eqb item rawNeedle then true else hasItem rest rawNeedle
  end.

(** CheckCondition checks if a single condition is met within the
    frontmatter data.  [None] is a panic of an index expression. *)
Definition CheckCondition (front : gmap string Value) (cond : string) : option bool :=
  if strings.Contains cond "<" && strings.HasPrefix cond "date" then
    part ← strings.Split cond "<" !! 1%nat;
    let cutoff := strings.TrimSpace part in
    (* cutoffTime, _ := time.Parse(...): the error is dropped and the zero
       time stands in *)
    let cutoffTime := default zeroTime (time_Parse cutoff) in
    match front !! "date" with
    | Some val =>
        let dateStr := fmtV val in
        match time_Parse dateStr with
        | Some postTime => Some (Before postTime cutoffTime)
        | None => Some false
        end
    | None => Some false
    end
  else if strings.Contains cond "contains" then
    let parts := strings.Split cond "contains" in
    part0 ← parts !! 0%nat;
    let key := strings.TrimSpace part0 in
    part1 ← parts !! 1%nat;
    let rawNeedle := strings.TrimSpace part1 in
    let rawNeedle := strings.Trim rawNeedle quoteChars in
    match front !! key with
    | Some val => Some (hasItem (flattenToStrings val) rawNeedle)
    | None => Some false
    end
  else if strings.Contains cond "=" then
    let parts := strings.Split cond "=" in
    part0 ← parts !! 0%nat;
    let key := strings.TrimSpace part0 in
    part1 ← parts !! 1%nat;
    let value := strings.TrimSpace part1 in
    match front !! key with
    | Some val => Some (String.eqb (fmtV val) value)
    | None => Some false
    end
  else Some false.

(** The inner loop of [EvaluateConditions]: every AND condition of one
    clause, stopping at the first that fails. *)
Fixpoint allAnds (front : gmap string Value) (ands : list string) : option bool :=
  match ands with
  | [] => Some true
  | andClause :: rest =>
      let andClause := strings.TrimSpace andClause in
      ok ← CheckCondition front andClause;
      if (ok : bool) then allAnds front rest else Some false
  end.

(** The outer loop: the first OR clause whose AND conditions all hold. *)
Fixpoint anyClause (front : gmap string Value) (clauses : list string) : option bool :=
  match clauses with
  | [] => Some false
  | clause :: rest =>
      all ← allAnds front (strings.Split clause "&&");
      if (all : bool) then Some true else anyClause front rest
  end.

(** EvaluateConditions evaluates a complex condition string against the
    frontmatter data. *)
Definition EvaluateConditions (front : gmap string Value) (cond : string) : option bool :=
  let cond := strings.ReplaceAll cond " AND " " && " in
  let cond := strings.ReplaceAll cond " OR " " || " in
  let clauses := strings.Split cond "||" in
  anyClause front clauses.

(** The text before the first instance of [sep] (all of [s] when there is
    none), and the text after it. *)
Definition before (sep s : string) : string :=
  match strings.Index s sep with Some m => sliceTo m s | None => s end.

Definition after (sep s : string) : string :=
  match strings.Index s sep with
  | Some m => sliceFrom (m + String.length sep) s
  | None => ""
  end.


(** The condition test of [processFile]:
    [cfg.Condition != "" && !helpers.EvaluateConditions(front, cfg.Condition)].
    When it holds the document is left alone. *)
Definition conditionRejects (Condition : string) (front : gmap string Value) : option bool :=
  if negb (String.eqb Condition "")
  then negb <$> EvaluateConditions front Condition
  else Some false.

(** ** The clause shapes, one rule at a time

    The three branches of [CheckCondition] taken apart, to state the order
    in which they are tried. *)
Definition isDateShape (cond : string) : bool :=
  strings.Contains cond "<" && strings.HasPrefix cond "date".

Definition dateRule (front : gmap string Value) (cond : string) : option bool :=
  part ← strings.Split cond "<" !! 1%nat;
  let cutoffTime := default zeroTime (time_Parse (strings.TrimSpace part)) in
  match front !! "date" with
  | Some val =>
      match time_Parse (fmtV val) with
      | Some postTime => Some (Before postTime cutoffTime)
      | None => Some false
      end
  | None => Some false
  end.

Definition membershipRule (front : gmap string Value) (cond : string) : option bool :=
  part0 ← strings.Split cond "contains" !! 0%nat;
  part1 ← strings.Split cond "contains" !! 1%nat;
  match front !! strings.TrimSpace part0 with
  | Some val =>
      Some (hasItem (flattenToStrings val)
              (strings.Trim (strings.TrimSpace part1) quoteChars))
  | None => Some false
  end.

Definition equalityRule (front : gmap string Value) (cond : string) : option bool :=
  part0 ← strings.Split cond "=" !! 0%nat;
  part1 ← strings.Split cond "=" !! 1%nat;
  match front !! strings.TrimSpace part0 with
  | Some val => Some (String.eqb (fmtV val) (strings.TrimSpace part1))
  | None => Some false
  end.

(** ** The membership rule as the specification words it

    Split on the first [contains]; the key is the left side trimmed; the
    needle is the whole right side trimmed and stripped of one layer of
    surrounding quotes; an absent field flattens to the empty sequence. *)
Definition isQuote (c : ascii) : bool := inSet quoteChars c.

Definition stripOneLayer (s : string) : string :=
  match s with
  | String q rest =>
      match reverse rest with
      | String q' inner =>
          if isQuote q && Ascii.eqb q q' then reverse inner else s
      | "" => s
      end
  | "" => s
  end.

Definition membershipAsSpecified (front : gmap string Value) (clause : string) : bool :=
  let key := strings.TrimSpace (before "contains" clause) in
  let needle := stripOneLayer (strings.TrimSpace (after "contains" clause)) in
  hasItem (match front !! key with Some val => flattenToStrings val | None => [] end)
          needle.

(** ** Splitting a document *)

Definition nl : string := String (byte 10) "".

(** SplitFrontmatter attempts to split a byte slice into frontmatter
    delimiter, frontmatter content, and body content.  [None] is the panic
    of [parts[1]] when [SplitN] returned a single part; a nil byte slice is
    the empty string. *)
Definition SplitFrontmatter (data : string) : option (string * string * string) :=
  let content := data in
  if strings.HasPrefix content ("---" +:+ nl) then
    let parts := strings.SplitN (sliceFrom 4 content) "---" 2 in
    part0 ← parts !! 0%nat;
    part1 ← parts !! 1%nat;
    Some ("---", part0, part1)
  else if strings.HasPrefix content ("+++" +:+ nl) then
    let parts := strings.SplitN (sliceFrom 4 content) "+++" 2 in
    part0 ← parts !! 0%nat;
    part1 ← parts !! 1%nat;
    Some ("+++", part0, part1)
  else
    match
      (if strings.HasPrefix content "{" then strings.Index content ("}" +:+ nl)
       else None)
    with
    | Some idx =>
        if (0 <? idx)%nat
        then Some ("{", sliceTo (idx + 1) content, sliceFrom (idx + 2) content)
        else Some ("", "", data)
    | None => Some ("", "", data)
    end.

(** ** Formatting verbs and sorting *)

Definition lowerhex (n : nat) : ascii :=
  byte (if (n <? 10)%nat then 48 + n else 87 + n).

Definition backslash : ascii := byte 92.
Definition dquote : ascii := byte 34.

(** One byte of [strconv.Quote].  Text beyond ASCII is taken to be UTF-8
    made of printable runes, which [Quote] copies. *)
Definition quoteByte (c : ascii) : string :=
  let n := nat_of_ascii c in
  if Ascii.eqb c dquote || Ascii.eqb c backslash then String backslash (String c "")
  else if (n =? 7)%nat then String backslash "a"
  else if (n =? 8)%nat then String backslash "b"
  else if (n =? 12)%nat then String backslash "f"
  else if (n =? 10)%nat then String backslash "n"
  else if (n =? 13)%nat then String backslash "r"
  else if (n =? 9)%nat then String backslash "t"
  else if (n =? 11)%nat then String backslash "v"
  else if (n <? 32)%nat || (n =? 127)%nat
       then String backslash (String "x" (String (lowerhex (n / 16)) (String (lowerhex (n mod 16)) "")))
  else String c "".

Fixpoint quoteBody (s : string) : string :=
  match s with
  | "" => ""
  | String c s' => quoteByte c +:+ quoteBody s'
  end.

(** [fmt.Sprintf("%q", s)] *)
Definition fmtQ (s : string) : string :=
  String dquote (quoteBody s +:+ String dquote "").

(** The order of Go strings: byte-wise lexicographic. *)
Definition strLe (a b : string) : Prop := Is_true (String.leb a b).

#[global] Instance strLe_dec (a b : string) : Decision (strLe a b) := _.

(** [sort.Strings] *)
Definition sortStrings (l : list string) : list string := merge_sort strLe l.

Fixpoint concatStrings (l : list string) : string :=
  match l with
  | [] => ""
  | x :: rest => x +:+ concatStrings rest
  end.

(** ** Maps as references

    A Go map is a reference: [MarshalFrontmatter] makes a second map, fills
    it from the first and deletes from it.  The heap holds the maps by
    reference, and counts the [range] loops run so far; the order in which a
    [range] loop visits a map is left to an oracle. *)
Definition ref : Type := positive.

Record Heap : Type := mkHeap {
  maps : gmap ref (gmap string Value);
  ranges : nat
}.

Definition Run (A : Type) : Type := Heap -> A * Heap.

Definition ret {A : Type} (a : A) : Run A := fun h => (a, h).

Definition bind {A B : Type} (m : Run A) (k : A -> Run B) : Run B :=
  fun h => let (a, h') := m h in k a h'.

#[global] Instance Run_ret : MRet Run := @ret.
#[global] Instance Run_bind : MBind Run := fun A B k m => bind m k.

(** The entries of the map behind [r]; a reference to no map reads as the
    nil map. *)
Definition contents (h : Heap) (r : ref) : gmap string Value :=
  default ∅ (maps h !! r).

(** [make(map[string]interface{})] *)
Definition makeMap : Run ref :=
  fun h => let r := fresh (dom (maps h)) in
           (r, mkHeap (<[r := ∅]> (maps h)) (ranges h)).

(** [v, ok := m[k]] *)
Definition mapIndex (r : ref) (k : string) : Run (option Value) :=
  fun h => (contents h r !! k, h).

(** [m[k] = v] *)
Definition mapAssign (r : ref) (k : string) (v : Value) : Run unit :=
  fun h => (tt, mkHeap (<[r := <[k := v]> (contents h r)]> (maps h)) (ranges h)).

(** [delete(m, k)] *)
Definition mapDelete (r : ref) (k : string) : Run unit :=
  fun h => (tt, mkHeap (<[r := delete k (contents h r)]> (maps h)) (ranges h)).

(** The map as a whole, as a library function reads it. *)
Definition mapRead (r : ref) : Run (gmap string Value) :=
  fun h => (contents h r, h).

(** ** The encoder *)

Definition YamlDelimiter : string := "---".
Definition TomlDelimiter : string := "+++".
Definition JsonDelimiter : string := "{".

Inductive error : Type :=
  | errorf (msg : string)      (* fmt.Errorf *)
  | marshalError.              (* an error of encoding/json *)

Inductive result : Type :=
  | Ok (bytes : string)
  | Err (err : error).

Section Encoder.

(** Whether [fmt.Sscanf(s, "%f", new(float64))] succeeds. *)
Variable scansAsFloat : string -> bool.

(** [toml.Marshal(map[string]interface{}{key: value})]; [None] is an error. *)
Variable toml_Marshal : string -> Value -> option string.

(** The indented JSON text of a float64, a time.Time or a value of another
    type at nesting depth [d]; [None] is an error of [encoding/json]. *)
Variable json_other : nat -> Value -> option string.

(** The entries a [range] loop over a map visits, in the order it visits
    them; the first argument counts the loops run before. *)
Variable rangeOrder : nat -> gmap string Value -> list (string * Value).

(** [for k, v := range m] *)
Definition mapRange (r : ref) : Run (list (string * Value)) :=
  fun h => (rangeOrder (ranges h) (contents h r), mkHeap (maps h) (S (ranges h))).

Definition specialChars : string :=
  "{}[]#&*!|>'" +:+ String dquote "%@`, ".

(** needsQuotes checks if a string needs quotes in YAML *)
Definition needsQuotes (s : string) : bool :=
  if String.eqb s "" then true
  else if String.eqb s "true" || String.eqb s "false" || String.eqb s "yes"
          || String.eqb s "no" || String.eqb s "null" || String.eqb s "~" then true
  else if scansAsFloat s then true
  else if anyByte (inSet specialChars) s then true
  else if strings.HasPrefix s "-" || strings.HasPrefix s ":"
          || strings.HasPrefix s "?" then true
  else false.

(** formatYAMLValue formats a value for YAML output *)
Definition formatYAMLValue (value : Value) : string :=
  match value with
  | VString v => if needsQuotes v then fmtQ v else v
  | _ => fmtV value
  end.

(** formatArrayItems converts array items to properly formatted strings *)
Definition formatArrayItems (arr : Value) : list string :=
  match arr with
  | VSlice v => map formatYAMLValue v
  | VStrings v => map fmtQ v
  | _ => []
  end.

(** addYAMLField adds a field to the YAML builder with proper formatting *)
Definition addYAMLField (builder : string) (field : string) (value : Value) : string :=
  match value with
  | VSlice _ | VStrings _ =>
      let items := formatArrayItems value in
      builder +:+ (field +:+ ": [" +:+ strings.Join items ", " +:+ "]" +:+ nl)
  | _ =>
      builder +:+ (field +:+ ": " +:+ formatYAMLValue value +:+ nl)
  end.

(** One turn of the TOML loop: what is written to [buf] for [key]. *)
Definition tomlItem (item : Value) : string :=
  match item with
  | VString val => fmtQ val
  | _ => fmtV item
  end.

Definition addTOMLField (buf : string) (key : string) (value : Value) : string :=
  match value with
  | VStrings v =>
      buf +:+ (key +:+ " = [" +:+ strings.Join (map fmtQ v) ", " +:+ "]" +:+ nl)
  | VSlice v =>
      buf +:+ (key +:+ " = [" +:+ strings.Join (map tomlItem v) ", " +:+ "]" +:+ nl)
  | VString v => buf +:+ (key +:+ " = " +:+ fmtQ v +:+ nl)
  | VBool v => buf +:+ (key +:+ " = " +:+ fmtBool v +:+ nl)
  | VInt _ | VInt64 _ | VFloat64 _ => buf +:+ (key +:+ " = " +:+ fmtV value +:+ nl)
  | VTime _ rfc3339 => buf +:+ (key +:+ " = " +:+ fmtQ rfc3339 +:+ nl)
  | VNil | VOther _ =>
      match toml_Marshal key value with
      | Some fieldData =>
          let fieldStr := fieldData in
          let fieldStr := strings.ReplaceAll fieldStr ("[" +:+ nl) "[" in
          let fieldStr := strings.ReplaceAll fieldStr (nl +:+ "]") "]" in
          let fieldStr := strings.ReplaceAll fieldStr ("," +:+ nl) ", " in
          buf +:+ fieldStr
      | None => buf +:+ (key +:+ " = " +:+ fmtV value +:+ nl)
      end
  end.

(** [json.MarshalIndent(m, "", "  ")] as far as the modelled values go:
    keys sorted, one member or element per line, two spaces per level, an
    empty array as [[]] and an empty object as [{}].  A slice is its items
    (the nil slice is not told apart from the empty one).  As for
    [quoteByte], text beyond ASCII is taken to be valid UTF-8 that the
    library copies; the line separators U+2028 and U+2029 and invalid bytes,
    which it escapes, are outside the model. *)
Definition jsonByte (c : ascii) : string :=
  let n := nat_of_ascii c in
  if Ascii.eqb c dquote || Ascii.eqb c backslash then String backslash (String c "")
  else if (n =? 10)%nat then String backslash "n"
  else if (n =? 13)%nat then String backslash "r"
  else if (n =? 9)%nat then String backslash "t"
  else if (n <? 32)%nat || Ascii.eqb c "<" || Ascii.eqb c ">" || Ascii.eqb c "&"
       then String backslash
              ("u00" +:+ String (lowerhex (n / 16)) (String (lowerhex (n mod 16)) ""))
  else String c "".

Fixpoint jsonBody (s : string) : string :=
  match s with
  | "" => ""
  | String c s' => jsonByte c +:+ jsonBody s'
  end.

Definition jsonString (s : string) : string :=
  String dquote (jsonBody s +:+ String dquote "").

Fixpoint indentTo (d : nat) : string :=
  match d with
  | O => ""
  | S d' => "  " +:+ indentTo d'
  end.

Definition newline (d : nat) : string := nl +:+ indentTo d.

Fixpoint sequenceOpt {A : Type} (l : list (option A)) : option (list A) :=
  match l with
  | [] => Some []
  | x :: rest =>
      match x, sequenceOpt rest with
      | Some a, Some r => Some (a :: r)
      | _, _ => None
      end
  end.

Definition jsonArray (d : nat) (items : list string) : string :=
  match items with
  | [] => "[]"
  | _ => "[" +:+ newline (S d) +:+ strings.Join items ("," +:+ newline (S d))
         +:+ newline d +:+ "]"
  end.

Fixpoint jsonValue (d : nat) (v : Value) : option string :=
  match v with
  | VNil => Some "null"
  | VString s => Some (jsonString s)
  | VBool b => Some (fmtBool b)
  | VInt n | VInt64 n => Some (fmtInt n)
  | VSlice items =>
      jsonArray d <$> sequenceOpt (map (jsonValue (S d)) items)
  | VStrings items => Some (jsonArray d (map jsonString items))
  | VFloat64 _ | VTime _ _ | VOther _ => json_other d v
  end.

Definition jsonMember (m : gmap string Value) (k : string) : option string :=
  v ← m !! k;
  text ← jsonValue 1 v;
  Some (jsonString k +:+ ": " +:+ text).

Definition json_MarshalIndent (m : gmap string Value) : option string :=
  let keys := sortStrings (map fst (map_to_list m)) in
  members ← sequenceOpt (map (jsonMember m) keys);
  Some (match members with
        | [] => "{}"
        | _ => "{" +:+ newline 1 +:+ strings.Join members ("," +:+ newline 1)
               +:+ newline 0 +:+ "}"
        end).

(** The loop [for k, v := range front { frontCopy[k] = v }]. *)
Fixpoint copyEntries (frontCopy : ref) (entries : list (string * Value)) : Run unit :=
  match entries with
  | [] => ret tt
  | (k, v) :: rest => mapAssign frontCopy k v;; copyEntries frontCopy rest
  end.

Definition orderedFields : list string :=
  ["title"; "date"; "draft"; "series"; "categories"; "tags"].

(** The loop over [orderedFields]: a field that exists is written, and
    removed from the copy. *)
Fixpoint addOrdered (frontCopy : ref) (fields : list string) (orderedYAML : string) : Run string :=
  match fields with
  | [] => ret orderedYAML
  | field :: rest =>
      found ← mapIndex frontCopy field;
      match found with
      | Some value =>
          mapDelete frontCopy field;;
          addOrdered frontCopy rest (addYAMLField orderedYAML field value)
      | None => addOrdered frontCopy rest orderedYAML
      end
  end.

(** The loops over the sorted keys; [frontCopy[field]] of a missing key is
    nil. *)
Fixpoint addFields (add : string -> string -> Value -> string)
    (frontCopy : ref) (fields : list string) (out : string) : Run string :=
  match fields with
  | [] => ret out
  | field :: rest =>
      found ← mapIndex frontCopy field;
      addFields add frontCopy rest (add out field (default VNil found))
  end.

(** MarshalFrontmatter marshals frontmatter data based on the specified
    delimiter (---, +++, or {). *)
Definition MarshalFrontmatter (delimiter : string) (front : ref) : Run result :=
  (* Make a copy of the map to avoid modifying the original *)
  frontCopy ← makeMap;
  entries ← mapRange front;
  copyEntries frontCopy entries;;
  if String.eqb delimiter YamlDelimiter then
    orderedYAML ← addOrdered frontCopy orderedFields "";
    remaining ← mapRange frontCopy;
    let remainingFields := sortStrings (map fst remaining) in
    orderedYAML ← addFields addYAMLField frontCopy remainingFields orderedYAML;
    ret (Ok orderedYAML)
  else if String.eqb delimiter TomlDelimiter then
    entries ← mapRange frontCopy;
    let keys := sortStrings (map fst entries) in
    buf ← addFields addTOMLField frontCopy keys "";
    ret (Ok buf)
  else if String.eqb delimiter JsonDelimiter then
    m ← mapRead frontCopy;
    ret (match json_MarshalIndent m with
         | Some bytes => Ok bytes
         | None => Err marshalError
         end)
  else
    ret (Err (errorf ("unsupported frontmatter format: " +:+ delimiter))).

End Encoder.

(** ** The decoder *)

(** A Go map value is nil or a map that was made.  A nil map reads as the
    empty map: [m[k]] finds nothing, [range] visits nothing and [delete]
    does nothing; an assignment to it panics.  A decoder that is handed
    [&front] may leave [front] nil, as for an empty document. *)
Inductive GoMap : Type :=
  | nilMap
  | madeMap (m : gmap string Value).

(** What a nil or made map holds. *)
Definition entriesOf (front : GoMap) : gmap string Value :=
  match front with
  | nilMap => ∅
  | madeMap m => m
  end.

(** [front[k] = v]; [None] is the panic of the assignment to a nil map. *)
Definition assignEntry (front : GoMap) (k : string) (v : Value) : option GoMap :=
  match front with
  | nilMap => None
  | madeMap m => Some (madeMap (<[k := v]> m))
  end.

(** [delete(front, k)] *)
Definition deleteEntry (front : GoMap) (k : string) : GoMap :=
  match front with
  | nilMap => nilMap
  | madeMap m => madeMap (delete k m)
  end.

Section Decoder.

(** [yaml.Unmarshal], [toml.Unmarshal] and [json.Unmarshal] into [&front],
    where [front] is a nil map: the map as the library leaves it, and the
    error if there is one. *)
Variable yaml_Unmarshal : string -> GoMap * option error.
Variable toml_Unmarshal : string -> GoMap * option error.
Variable json_Unmarshal : string -> GoMap * option error.

(** UnmarshalFrontmatter unmarshals frontmatter data based on the specified
    delimiter (---, +++, or {). *)
Definition UnmarshalFrontmatter (delimiter : string) (data : string)
    : GoMap * option error :=
  if String.eqb delimiter YamlDelimiter then yaml_Unmarshal data
  else if String.eqb delimiter TomlDelimiter then toml_Unmarshal data
  else if String.eqb delimiter JsonDelimiter then json_Unmarshal data
  else (nilMap, Some (errorf ("unknown frontmatter format: " +:+ delimiter))).

End Decoder.

(** ** The order of the fields, as the specification words it *)

(** The priority fields that are present, in their fixed order. *)
Definition priorityPresent (m : gmap string Value) : list string :=
  filter (fun k => is_Some (m !! k)) orderedFields.

(** The fields that are not priority fields. *)
Definition remainingOf (m : gmap string Value) : gmap string Value :=
  filter (fun kv => kv.1 ∉ orderedFields) m.

(** The value under a key, nil when absent. *)
Definition valueAt (m : gmap string Value) (k : string) : Value :=
  default VNil (m !! k).

(** ** The loops of the encoder as functions of the map *)

(** The entries assigned one after the other. *)
Definition insertAll (c : gmap string Value) (entries : list (string * Value)) : gmap string Value :=
  foldl (fun acc kv => <[kv.1 := kv.2]> acc) c entries.

(** The loop over [orderedFields]: the text written and the map left. *)
Fixpoint orderedPure (add : string -> string -> Value -> string)
    (c : gmap string Value) (fields : list string) (out : string)
    : string * gmap string Value :=
  match fields with
  | [] => (out, c)
  | field :: rest =>
      match c !! field with
      | Some value => orderedPure add (delete field c) rest (add out field value)
      | None => orderedPure add c rest out
      end
  end.

(** The text of one field: what [addYAMLField] and the TOML loop append. *)
Definition yamlField (scansAsFloat : string -> bool) (k : string) (v : Value) : string :=
  addYAMLField scansAsFloat "" k v.

Definition tomlField (toml_Marshal : string -> Value -> option string)
    (k : string) (v : Value) : string :=
  addTOMLField toml_Marshal "" k v.

(** The fields of [m] written one after the other, in the order [keys]. *)
Definition fieldsText (line : string -> Value -> string)
    (m : gmap string Value) (keys : list string) : string :=
  concatStrings (map (fun k => line k (valueAt m k)) keys).

(** A computation that writes to no map but the one behind [fc]. *)
Definition writesOnly {A : Type} (fc : ref) (m : Run A) : Prop :=
  forall (h : Heap) (r : ref), r <> fc -> maps (m h).2 !! r = maps h !! r.

(** ** Stand-ins for the library parameters in closed examples *)

(** A [range] order: the entries as the map lists them, and the reverse. *)
Definition listedOrder (n : nat) (m : gmap string Value) : list (string * Value) :=
  map_to_list m.

Definition reversedOrder (n : nat) (m : gmap string Value) : list (string * Value) :=
  rev (map_to_list m).

(** No string scans as a float; used only where no string is formatted for
    YAML. *)
Definition scansNothing (s : string) : bool := false.

(** The libraries fail on every value handed to them; used only where no
    value reaches them. *)
Definition tomlFails (key : string) (value : Value) : option string := None.

Definition jsonFails (d : nat) (value : Value) : option string := None.

(** A heap with one map, at reference 1. *)
Definition heapOf (m : gmap string Value) : Heap := mkHeap {[ 1%positive := m ]} 0.

(** ** Sample documents *)

Definition testFront : gmap string Value :=
  {[ "draft" := VBool true;
     "tags" := VSlice [VString "beta"; VInt 123; VString "release"];
     "date" := VString "2023-01-01" ]}.

Definition postFront : gmap string Value :=
  {[ "tags" := VSlice [VString "a"; VString "b"];
     "title" := VString "x";
     "date" := VString "2023-01-01" ]}.

(** A document without string scalars, whose YAML text does not depend on
    the float scanner. *)
Definition pageFront : gmap string Value :=
  {[ "weight" := VInt 3;
     "tags" := VStrings ["a"; "b"];
     "draft" := VBool false;
     "aliases" := VStrings ["/old"] ]}.


(** ** The text of a field, as the specification words it

    The bracketed styles write one line per field; a sequence is written
    inline, its elements between brackets on the line of the key. *)

Definition isSequence (v : Value) : bool :=
  match v with
  | VSlice _ | VStrings _ => true
  | _ => false
  end.


(** yaml-style: a string is written as it is, or in quotes where
    [needsQuotes] asks for them; any other scalar in its display form. *)
Definition yamlScalar (scansAsFloat : string -> bool) (v : Value) : string :=
  match v with
  | VString s => if needsQuotes scansAsFloat s then fmtQ s else s
  | _ => fmtV v
  end.

(** The elements of a sequence: those of a [[]string] always in quotes. *)
Definition yamlItems (scansAsFloat : string -> bool) (v : Value) : list string :=
  match v with
  | VSlice items => map (yamlScalar scansAsFloat) items
  | VStrings items => map fmtQ items
  | _ => []
  end.

Definition yamlValueText (scansAsFloat : string -> bool) (v : Value) : string :=
  if isSequence v
  then "[" +:+ strings.Join (yamlItems scansAsFloat v) ", " +:+ "]"
  else yamlScalar scansAsFloat v.

(** [key: text] and the newline that closes the line. *)
Definition yamlLine (scansAsFloat : string -> bool) (k : string) (v : Value) : string :=
  k +:+ ": " +:+ yamlValueText scansAsFloat v +:+ nl.

(** toml-style: a string element in quotes, any other in its display
    form. *)
Definition tomlItems (v : Value) : list string :=
  match v with
  | VSlice items =>
      map (fun item => match item with VString s => fmtQ s | _ => fmtV item end) items
  | VStrings items => map fmtQ items
  | _ => []
  end.

(** The values the toml-style writes itself; nil and the values of other
    types are handed to the TOML library. *)
Definition tomlTyped (v : Value) : bool :=
  match v with
  | VNil | VOther _ => false
  | _ => true
  end.

Definition tomlValueText (v : Value) : string :=
  match v with
  | VSlice _ | VStrings _ => "[" +:+ strings.Join (tomlItems v) ", " +:+ "]"
  | VString s => fmtQ s
  | VBool b => fmtBool b
  | VTime _ rfc3339 => fmtQ rfc3339
  | _ => fmtV v
  end.

(** [key = text] and the newline that closes the line; for nil and the
    values of other types, what the encoder gets from the library. *)
Definition tomlLine (toml_Marshal : string -> Value -> option string)
    (k : string) (v : Value) : string :=
  if tomlTyped v then k +:+ " = " +:+ tomlValueText v +:+ nl
  else tomlField toml_Marshal k v.


(** ** Further functions of the helpers package *)

(** [strings.HasSuffix]: [len(s) >= len(suffix)] and
    [s[len(s)-len(suffix):] == suffix]. *)
Definition HasSuffix (s suffix : string) : bool :=
  (String.length suffix <=? String.length s)%nat
  && String.eqb (sliceFrom (String.length s - String.length suffix) s) suffix.

(** IsMarkdownFile checks if a file path has a .md extension. *)
Definition IsMarkdownFile (path : string) : bool := HasSuffix path ".md".

(** ParseSet parses a string in the format "key=value" and returns the key
    and value as a string and interface{}.  [None] is the panic of
    [parts[1]] on an input without [=]. *)
Definition ParseSet (input : string) : option (string * Value) :=
  let parts := strings.SplitN input "=" 2 in
  part0 ← parts !! 0%nat;
  let key := strings.TrimSpace part0 in
  part1 ← parts !! 1%nat;
  let val := strings.TrimSpace part1 in
  if String.eqb val "true" then Some (key, VBool true)
  else if String.eqb val "false" then Some (key, VBool false)
  else Some (key, VString val).

(** The replacements of [EvaluateConditions]: the expression with its
    keywords turned into operators. *)
Definition normalize (cond : string) : string :=
  strings.ReplaceAll (strings.ReplaceAll cond " AND " " && ") " OR " " || ".

(** ** The configuration and the counters *)

(** [config.Config] *)
Record Config : Type := mkConfig {
  ContentDir : string;
  SetField : string;
  Condition : string;
  DryRun : bool;
  Report : bool;
  DiffContext : Z;
  Lint : bool;
  Fix : bool;
  RequiredFields : list string;
  ProhibitedFields : list string;
  GitCommit : bool;
  GcMsg : string;
  Yes : bool;
  ExtractKey : string;
  ExtractFormat : string
}.

(** A Go [int] is 64 bits wide and wraps around. *)
Definition wrapInt (n : Z) : Z := (n + 2 ^ 63) mod 2 ^ 64 - 2 ^ 63.

(** [n++] *)
Definition incr (n : Z) : Z := wrapInt (n + 1).

(** [report.Stats] *)
Record StatsT : Type := mkStats {
  Processed : Z;
  Matched : Z;
  Updated : Z;
  LintFails : Z;
  LintFixed : Z
}.

Definition bumpMatched (s : StatsT) : StatsT :=
  mkStats (Processed s) (incr (Matched s)) (Updated s) (LintFails s) (LintFixed s).

Definition bumpUpdated (s : StatsT) : StatsT :=
  mkStats (Processed s) (Matched s) (incr (Updated s)) (LintFails s) (LintFixed s).

Definition bumpLintFails (s : StatsT) : StatsT :=
  mkStats (Processed s) (Matched s) (Updated s) (incr (LintFails s)) (LintFixed s).

Definition bumpLintFixed (s : StatsT) : StatsT :=
  mkStats (Processed s) (Matched s) (Updated s) (LintFails s) (incr (LintFixed s)).

(** ** Linting

    [lintAndFix] changes the map it is given and the counters; both are
    passed through.  [None] is the panic of [front[req] = ""] on a nil
    map. *)

(** The loop over [cfg.RequiredFields]. *)
Fixpoint lintRequired (doFix : bool) (reqs : list string)
    (front : GoMap) (Stats : StatsT) (hasIssue : bool)
    : option (GoMap * StatsT * bool) :=
  match reqs with
  | [] => Some (front, Stats, hasIssue)
  | req :: rest =>
      match entriesOf front !! req with
      | None =>
          if doFix
          then match assignEntry front req (VString "") with
               | Some front =>
                   lintRequired doFix rest front (bumpLintFixed Stats) true
               | None => None
               end
          else lintRequired doFix rest front Stats true
      | Some _ => lintRequired doFix rest front Stats hasIssue
      end
  end.

(** The loop over [cfg.ProhibitedFields]. *)
Fixpoint lintProhibited (doFix : bool) (blocks : list string)
    (front : GoMap) (Stats : StatsT) (hasIssue : bool)
    : GoMap * StatsT * bool :=
  match blocks with
  | [] => (front, Stats, hasIssue)
  | block :: rest =>
      match entriesOf front !! block with
      | Some _ =>
          if doFix
          then lintProhibited doFix rest (deleteEntry front block)
                 (bumpLintFixed Stats) true
          else lintProhibited doFix rest front Stats true
      | None => lintProhibited doFix rest front Stats hasIssue
      end
  end.

Definition lintAndFix (cfg : Config) (front : GoMap) (Stats : StatsT)
    : option (GoMap * StatsT) :=
  let hasIssue := false in
  match lintRequired (Fix cfg) (RequiredFields cfg) front Stats hasIssue with
  | None => None
  | Some (front, Stats, hasIssue) =>
      let '(front, Stats, hasIssue) :=
        lintProhibited (Fix cfg) (ProhibitedFields cfg) front Stats hasIssue in
      if hasIssue then Some (front, bumpLintFails Stats) else Some (front, Stats)
  end.

(** ** The command line and the commit message *)

(** [parseCSV] of package cmd. *)
Definition parseCSV (input : string) : list string :=
  if String.eqb input "" then []
  else map strings.TrimSpace (strings.Split input ",").

(** generateCommitMessage generates a commit message based on the
    configuration. *)
Definition generateCommitMessage (cfg : Config) : string :=
  if negb (String.eqb (GcMsg cfg) "") then GcMsg cfg
  else
    let parts := [] in
    let parts :=
      if negb (String.eqb (SetField cfg) "")
      then parts ++ ["set " +:+ SetField cfg] else parts in
    let parts :=
      if negb (String.eqb (Condition cfg) "")
      then parts ++ ["filtered on " +:+ fmtQ (Condition cfg)] else parts in
    let parts :=
      if Lint cfg && Fix cfg then parts ++ ["auto-fixed lint issues"]
      else if Lint cfg then parts ++ ["ran lint"]
      else parts in
    if (length parts =? 0)%nat
    then "chore: batch update via hugo-frontmatter-toolbox"
    else "chore: " +:+ strings.Join parts ", ".

(** A configuration with every field at its zero value but the lint
    lists. *)
Definition lintConfig (doFix : bool) (required prohibited : list string) : Config :=
  mkConfig "" "" "" false false 0 true doFix required prohibited false "" false "" "".

Definition zeroStats : StatsT := mkStats 0 0 0 0 0.

(** Whether a key is missing from, or present in, a document. *)
Definition isAbsent (front : gmap string Value) (k : string) : bool :=
  match front !! k with None => true | Some _ => false end.

Definition isPresent (front : gmap string Value) (k : string) : bool :=
  negb (isAbsent front k).

(** Whether a document breaks a lint rule: a required field is missing or
    a prohibited field is there. *)
Definition hasLintIssue (cfg : Config) (front : gmap string Value) : bool :=
  existsb (isAbsent front) (RequiredFields cfg)
  || existsb (isPresent front) (ProhibitedFields cfg).

(** The number of bytes of [s] equal to [c]. *)
Fixpoint countByte (c : ascii) (s : string) : nat :=
  match s with
  | "" => 0%nat
  | String d s' => ((if Ascii.eqb c d then 1 else 0) + countByte c s')%nat
  end.

(** ** The tool

    [processFile] and the walk of [RunTool].  The package state
    ([report.Stats], [report.ModifiedFiles], [extractedData]) is passed
    through together with the log of the calls of [os.WriteFile]; what the
    functions print is outside the model. *)

(** Where an error returned by [processFile] comes from. *)
Inductive failure : Type :=
  | fromHelpers (err : error)   (* returned by a function of helpers *)
  | fromReadFile                (* os.ReadFile *)
  | fromScanln                  (* fmt.Scanln, in confirm *)
  | fromWriteFile               (* os.WriteFile *)
  | fromWalk.                   (* handed to the callback by filepath.Walk *)

Record World : Type := mkWorld {
  report_Stats : StatsT;
  report_ModifiedFiles : list string;
  extractedData : list (gmap string string);
  (* the calls of os.WriteFile so far: name and data *)
  written : list (string * string)
}.

Definition setStats (w : World) (s : StatsT) : World :=
  mkWorld s (report_ModifiedFiles w) (extractedData w) (written w).

Definition bumpProcessed (s : StatsT) : StatsT :=
  mkStats (incr (Processed s)) (Matched s) (Updated s) (LintFails s) (LintFixed s).

Section Tool.

Variable scansAsFloat : string -> bool.
Variable toml_Marshal : string -> Value -> option string.
Variable json_other : nat -> Value -> option string.
Variable rangeOrder : nat -> gmap string Value -> list (string * Value).
Variable yaml_Unmarshal : string -> GoMap * option error.
Variable toml_Unmarshal : string -> GoMap * option error.
Variable json_Unmarshal : string -> GoMap * option error.

(** [os.ReadFile]: the bytes of the file, [None] for an error. *)
Variable os_ReadFile : string -> option string.

(** [os.WriteFile]: whether the call succeeds. *)
Variable os_WriteFile : string -> string -> bool.

(** [confirm]: the answer read from the terminal, [None] for the error of
    [fmt.Scanln]. *)
Variable confirm : string -> option bool.

(** [helpers.MarshalFrontmatter(delimiter, front)] on the map of
    [processFile], which no one else holds; a nil map is ranged over as
    the empty map. *)
Definition encode (delimiter : string) (front : GoMap) : result :=
  (MarshalFrontmatter scansAsFloat toml_Marshal json_other rangeOrder
     delimiter 1%positive (heapOf (entriesOf front))).1.

(** The error of ShowFrontmatterDiff: that of decoding the original, then
    that of decoding the updated frontmatter. *)
Definition ShowFrontmatterDiff (original updated delim : string) : option error :=
  match (UnmarshalFrontmatter yaml_Unmarshal toml_Unmarshal json_Unmarshal
           delim original).2 with
  | Some err => Some err
  | None =>
      (UnmarshalFrontmatter yaml_Unmarshal toml_Unmarshal json_Unmarshal
         delim updated).2
  end.

(** The lines of [processFile] that count and change a matched document,
    from [report.Stats.Matched++] to [report.Stats.Updated++].  [None] is
    a panic: that of [lintAndFix], that of [ParseSet], or that of
    [front[k] = v] on a nil map. *)
Definition applyEdits (cfg : Config) (front : GoMap) (Stats : StatsT)
    : option (GoMap * StatsT) :=
  let Stats := bumpMatched Stats in
  match (if Lint cfg then lintAndFix cfg front Stats else Some (front, Stats)) with
  | None => None
  | Some (front, Stats) =>
      if negb (String.eqb (SetField cfg) "")
      then match ParseSet (SetField cfg) with
           | Some (k, v) =>
               match assignEntry front k v with
               | Some front => Some (front, bumpUpdated Stats)
               | None => None
               end
           | None => None
           end
      else Some (front, Stats)
  end.

(** The buffer that [processFile] fills and writes. *)
Definition buffer (delimiter updatedFront body : string) : string :=
  if String.eqb delimiter "{" then updatedFront +:+ body
  else (delimiter +:+ nl) +:+ updatedFront +:+ (delimiter +:+ nl) +:+ body.

(** The lines of [processFile] from [hasChanges] on: the diff, the
    question, the write. *)
Definition writeChanges (cfg : Config) (path delimiter fmData body : string)
    (updatedFront : string) (w : World) : option failure * World :=
  let hasChanges := negb (String.eqb fmData updatedFront) in
  if hasChanges then
    match
      (if DryRun cfg || (negb (Yes cfg) && negb (DryRun cfg))
       then ShowFrontmatterDiff fmData updatedFront delimiter
       else None)
    with
    | Some err => (Some (fromHelpers err), w)
    | None =>
        match
          (if negb (Yes cfg) && negb (DryRun cfg) then confirm path
           else Some true)
        with
        | None => (Some fromScanln, w)
        | Some false => (None, w)
        | Some true =>
            if DryRun cfg then (None, w)
            else
              let buf := buffer delimiter updatedFront body in
              let w :=
                mkWorld (report_Stats w) (report_ModifiedFiles w)
                  (extractedData w) (written w ++ [(path, buf)]) in
              if os_WriteFile path buf
              then (None,
                    mkWorld (report_Stats w) (report_ModifiedFiles w ++ [path])
                      (extractedData w) (written w))
              else (Some fromWriteFile, w)
        end
    end
  else (None, w).

(** The row that [processFile] appends to [extractedData]. *)
Definition extractRow (cfg : Config) (path : string) (front : GoMap)
    : gmap string string :=
  let val :=
    match entriesOf front !! ExtractKey cfg with
    | Some v => fmtV v
    | None => "<missing>"
    end in
  {[ "file" := path; "key" := ExtractKey cfg; "value" := val ]}.

(** [None] is a panic; otherwise the error returned, and the state the
    call leaves. *)
Definition processFile (cfg : Config) (path : string) (w : World)
    : option (option failure * World) :=
  match os_ReadFile path with
  | None => Some (Some fromReadFile, w)
  | Some data =>
      match SplitFrontmatter data with
      | None => None
      | Some (delimiter, fmData, body) =>
          if String.eqb delimiter "" then Some (None, w)
          else
            match UnmarshalFrontmatter yaml_Unmarshal toml_Unmarshal
                    json_Unmarshal delimiter fmData with
            | (_, Some err) => Some (Some (fromHelpers err), w)
            | (front, None) =>
                if negb (String.eqb (ExtractKey cfg) "")
                then Some (None,
                           mkWorld (report_Stats w) (report_ModifiedFiles w)
                             (extractedData w ++ [extractRow cfg path front])
                             (written w))
                else
                  match conditionRejects (Condition cfg) (entriesOf front) with
                  | None => None
                  | Some true => Some (None, w)
                  | Some false =>
                      match applyEdits cfg front (report_Stats w) with
                      | None => None
                      | Some (front, Stats) =>
                          let w := setStats w Stats in
                          match encode delimiter front with
                          | Err err => Some (Some (fromHelpers err), w)
                          | Ok updatedFront =>
                              Some (writeChanges cfg path delimiter fmData body
                                      updatedFront w)
                          end
                      end
                  end
            end
      end
  end.

(** The callback that [RunTool] hands to [filepath.Walk]. *)
Definition walkFn (cfg : Config) (path : string) (isDir : bool)
    (err : option failure) (w : World) : option (option failure * World) :=
  match err with
  | Some err => Some (Some err, w)
  | None =>
      if negb isDir && IsMarkdownFile path
      then processFile cfg path (setStats w (bumpProcessed (report_Stats w)))
      else Some (None, w)
  end.

(** [filepath.Walk] on the calls it makes, in its order: path, whether it
    is a directory, and the error it found there.  The callback never
    returns [SkipDir]; its first error ends the walk. *)
Fixpoint Walk (cfg : Config) (visits : list (string * bool * option failure))
    (w : World) : option (option failure * World) :=
  match visits with
  | [] => Some (None, w)
  | (path, isDir, err) :: rest =>
      match walkFn cfg path isDir err w with
      | None => None
      | Some (Some err, w) => Some (Some err, w)
      | Some (None, w) => Walk cfg rest w
      end
  end.

End Tool.

(** Stand-ins for the closed examples: the decoders give one document
    whatever the text, or leave the map nil; the interface answers yes, the
    disk takes every write. *)
Definition decodesTo (m : gmap string Value) (data : string)
    : GoMap * option error := (madeMap m, None).

Definition decodesNil (data : string) : GoMap * option error := (nilMap, None).

Definition readsAs (data : string) (path : string) : option string := Some data.

Definition writeSucceeds (name data : string) : bool := true.

Definition answersYes (path : string) : option bool := Some true.

Definition emptyWorld : World := mkWorld zeroStats [] [] [].

(** A configuration with every field at its zero value but [--set],
    [--dry-run] and [--yes]. *)
Definition setConfig (set : string) (dryRun yes : bool) : Config :=
  mkConfig "" set "" dryRun false 0 false false [] [] false "" yes "" "".

(** A sample file and the document its frontmatter decodes to. *)
Definition draftFront : gmap string Value := {[ "draft" := VBool true ]}.

Definition draftFile : string :=
  "---" +:+ nl +:+ "draft: true" +:+ nl +:+ "---" +:+ nl +:+ "Body".

(** The walk over a directory with one markdown file and one other file. *)
Definition sampleVisits : list (string * bool * option failure) :=
  [ ("content", true, None);
    ("content/post.md", false, None);
    ("content/notes.txt", false, None) ].
(** ** Facts about the string library *)

Section StringFacts.

Lemma HasPrefix_nil s : strings.HasPrefix s "" = true.
Proof. by destruct s. Qed.

Lemma HasPrefix_app p r : strings.HasPrefix (p +:+ r) p = true.
Proof.
  induction p as [|c p IH]; simpl; [apply HasPrefix_nil|].
  by rewrite Ascii.eqb_refl.
Qed.

Lemma HasPrefix_inv s p :
  strings.HasPrefix s p = true -> s = p +:+ sliceFrom (String.length p) s.
Proof.
  revert s. induction p as [|c p IH]; intros [|d s]; simpl; try done.
  destruct (Ascii.eqb c d) eqn:E; [|done].
  apply Ascii.eqb_eq in E as ->. intros H. cbn. f_equal. by apply IH.
Qed.

Lemma sliceFrom_length j s :
  String.length (sliceFrom j s) = (String.length s - j)%nat.
Proof.
  revert s. induction j as [|j IH]; intros [|c s]; simpl; done.
Qed.

Lemma HasPrefix_length s p :
  strings.HasPrefix s p = true -> (String.length p <= String.length s)%nat.
Proof.
  revert s. induction p as [|c p IH]; intros [|d s]; simpl; try done; [lia|].
  destruct (Ascii.eqb c d); [|done]. intros H%IH. lia.
Qed.

Lemma Index_bound s sep m :
  strings.Index s sep = Some m -> (m + String.length sep <= String.length s)%nat.
Proof.
  revert m. induction s as [|c s IH]; intros m; cbn [strings.Index].
  - destruct (strings.HasPrefix "" sep) eqn:E; [|done].
    intros [= <-]. by apply HasPrefix_length in E.
  - destruct (strings.HasPrefix (String c s) sep) eqn:E.
    + intros [= <-]. by apply HasPrefix_length in E.
    + destruct (strings.Index s sep) as [k|]; [|done].
      intros [= <-]. specialize (IH k eq_refl). simpl. lia.
Qed.

(** The instance [Index] finds is an instance: the string is the text
    before it, the separator, and the text after it. *)
Lemma Index_split s sep m :
  strings.Index s sep = Some m ->
  s = sliceTo m s +:+ sep +:+ sliceFrom (m + String.length sep) s.
Proof.
  revert m. induction s as [|c s IH]; intros m; cbn [strings.Index].
  - destruct (strings.HasPrefix "" sep) eqn:E; [|done].
    intros [= <-]. by apply HasPrefix_inv in E.
  - destruct (strings.HasPrefix (String c s) sep) eqn:E.
    + intros [= <-]. by apply HasPrefix_inv in E.
    + destruct (strings.Index s sep) as [k|]; [|done].
      intros [= <-]. simpl. f_equal. by apply IH.
Qed.

Lemma Contains_Index s sep :
  strings.Contains s sep = true <-> exists m, strings.Index s sep = Some m.
Proof.
  unfold strings.Contains. destruct (strings.Index s sep) as [m|].
  - split; [by exists m|done].
  - split; [done|by intros [m ?]].
Qed.

Lemma Contains_false_Index s sep :
  strings.Contains s sep = false <-> strings.Index s sep = None.
Proof. unfold strings.Contains. by destruct (strings.Index s sep). Qed.

Lemma genSplit_first n s sep : is_Some (strings.genSplit n s sep !! 0%nat).
Proof.
  destruct n; simpl; [by eexists|].
  destruct (strings.Index s sep); by eexists.
Qed.

(** Whenever the separator occurs and one cut is allowed, there is a
    second piece: indexing it cannot fail. *)
Lemma genSplit_second n s sep m :
  strings.Index s sep = Some m ->
  is_Some (strings.genSplit (S n) s sep !! 1%nat).
Proof. intros H. simpl. rewrite H. simpl. apply genSplit_first. Qed.

Lemma Split_first s sep : is_Some (strings.Split s sep !! 0%nat).
Proof. apply genSplit_first. Qed.

Lemma Split_second s sep :
  sep <> "" -> strings.Contains s sep = true ->
  is_Some (strings.Split s sep !! 1%nat).
Proof.
  intros Hsep [m Hm]%Contains_Index.
  unfold strings.Split, strings.SplitN. simpl.
  pose proof (Index_bound _ _ _ Hm) as Hb.
  destruct (String.length s) as [|n] eqn:El.
  - destruct sep; [done|simpl in Hb; lia].
  - by eapply genSplit_second.
Qed.

(** The pieces of [Split] in terms of the first instance of the
    separator: the fuel of [genSplit] never runs out. *)
Lemma genSplit_fuel n k s sep :
  sep <> "" -> (String.length s <= n)%nat -> (String.length s <= k)%nat ->
  strings.genSplit n s sep = strings.genSplit k s sep.
Proof.
  intros Hsep. revert k s. induction n as [|n IH]; intros k s Hn Hk.
  - destruct s; [|simpl in Hn; lia].
    destruct k; [done|]. simpl.
    destruct sep as [|c sep]; [done|]. done.
  - destruct k as [|k].
    + destruct s; [|simpl in Hk; lia].
      simpl. destruct sep as [|c sep]; [done|]. done.
    + simpl. destruct (strings.Index s sep) as [m|] eqn:Hm; [|done].
      f_equal. pose proof (Index_bound _ _ _ Hm) as Hb.
      assert (0 < String.length sep)%nat by (destruct sep; [done|simpl; lia]).
      apply IH; rewrite sliceFrom_length; simpl in *; lia.
Qed.

Lemma Split_none s sep :
  strings.Index s sep = None -> strings.Split s sep = [s].
Proof.
  intros H. unfold strings.Split, strings.SplitN. simpl.
  destruct (String.length s); simpl; by rewrite ?H.
Qed.

Lemma Split_cons s sep m :
  sep <> "" -> strings.Index s sep = Some m ->
  strings.Split s sep =
    sliceTo m s :: strings.Split (sliceFrom (m + String.length sep) s) sep.
Proof.
  intros Hsep Hm. unfold strings.Split, strings.SplitN. simpl.
  pose proof (Index_bound _ _ _ Hm) as Hb.
  assert (0 < String.length sep)%nat by (destruct sep; [done|simpl; lia]).
  destruct (String.length s) as [|n] eqn:El; [lia|].
  simpl. rewrite Hm. f_equal.
  apply genSplit_fuel; [done|rewrite sliceFrom_length; lia..].
Qed.

Lemma leadingSpace_bound (seqs : list string) (s : string) :
  (strings.leadingSpace seqs s <= String.length s)%nat.
Proof.
  unfold strings.leadingSpace.
  destruct (filter _ seqs) as [|q l] eqn:E; [lia|].
  assert (q ∈ filter (fun q => Is_true (strings.HasPrefix s q)) seqs) as Hq
    by (rewrite E; left).
  apply list_elem_of_filter in Hq as [Hq _].
  apply HasPrefix_length. by apply Is_true_true.
Qed.

(** The fuel of the trimming loop never runs out: what it returns starts
    with no white space. *)
Lemma trimLeftSeqs_done (seqs : list string) (fuel : nat) :
  forall s : string,
    (String.length s <= fuel)%nat ->
    strings.leadingSpace seqs (strings.trimLeftSeqs fuel seqs s) = 0%nat.
Proof.
  induction fuel as [|fuel IH]; intros s Hlen; cbn [strings.trimLeftSeqs].
  - pose proof (leadingSpace_bound seqs s). lia.
  - destruct (strings.leadingSpace seqs s) as [|n] eqn:E; [done|].
    apply IH. rewrite sliceFrom_length.
    pose proof (leadingSpace_bound seqs s). lia.
Qed.

End StringFacts.

Lemma before_sep_after sep s :
  strings.Contains s sep = true -> s = before sep s +:+ sep +:+ after sep s.
Proof.
  intros [m Hm]%Contains_Index. unfold before, after. rewrite Hm.
  by apply Index_split.
Qed.

(** The first two pieces of [Split]: the text before the first separator,
    and the text between the first and the second one (up to the end when
    there is no second one). *)
Lemma Split_pieces s sep :
  sep <> "" -> strings.Contains s sep = true ->
  strings.Split s sep !! 0%nat = Some (before sep s) /\
  strings.Split s sep !! 1%nat = Some (before sep (after sep s)).
Proof.
  intros Hsep [m Hm]%Contains_Index. unfold before, after. rewrite Hm.
  rewrite (Split_cons _ _ _ Hsep Hm). split; [done|]. simpl.
  destruct (strings.Index (sliceFrom _ s) sep) as [k|] eqn:Hk.
  - by rewrite (Split_cons _ _ _ Hsep Hk).
  - by rewrite (Split_none _ _ Hk).
Qed.

(** ** The evaluator never panics *)

Section Totality.
Implicit Types (front : gmap string Value) (cond : string).

Lemma CheckCondition_total front cond : is_Some (CheckCondition front cond).
Proof.
  unfold CheckCondition.
  destruct (strings.Contains cond "<" && strings.HasPrefix cond "date") eqn:Hd.
  { apply andb_true_iff in Hd as [Hlt _].
    destruct (Split_second cond "<" ltac:(done) Hlt) as [part ->].
    cbn [mbind option_bind]. destruct (front !! "date"); [|by eexists].
    destruct (time_Parse _); by eexists. }
  destruct (strings.Contains cond "contains") eqn:Hc.
  { destruct (Split_first cond "contains") as [p0 ->].
    destruct (Split_second cond "contains" ltac:(done) Hc) as [p1 ->].
    cbn [mbind option_bind]. destruct (front !! _); by eexists. }
  destruct (strings.Contains cond "=") eqn:He; [|by eexists].
  destruct (Split_first cond "=") as [p0 ->].
  destruct (Split_second cond "=" ltac:(done) He) as [p1 ->].
  cbn [mbind option_bind]. destruct (front !! _); by eexists.
Qed.

Lemma allAnds_total front ands : is_Some (allAnds front ands).
Proof.
  induction ands as [|a ands IH]; cbn [allAnds]; [by eexists|].
  destruct (CheckCondition_total front (strings.TrimSpace a)) as [[] ->];
    cbn [mbind option_bind]; [done|by eexists].
Qed.

Lemma anyClause_total front clauses : is_Some (anyClause front clauses).
Proof.
  induction clauses as [|c clauses IH]; cbn [anyClause]; [by eexists|].
  destruct (allAnds_total front (strings.Split c "&&")) as [[] ->];
    cbn [mbind option_bind]; [by eexists|done].
Qed.

End Totality.

(** C7. For every document and every expression string, well formed or not,
    [EvaluateConditions] returns a boolean and never panics; and a clause
    that has none of the three recognised shapes (date, contains, equality)
    checks to false. *)
Theorem EvaluateConditions_never_panics (front : gmap string Value) (expr : string) :
  (exists b : bool, EvaluateConditions front expr = Some b) /\
  (forall clause : string,
     strings.Contains clause "<" && strings.HasPrefix clause "date" = false ->
     strings.Contains clause "contains" = false ->
     strings.Contains clause "=" = false ->
     CheckCondition front clause = Some false).
Proof.
  split.
  - apply anyClause_total.
  - intros clause Hd Hc He. unfold CheckCondition. by rewrite Hd, Hc, He.
Qed.

(** The table of [TestCheckCondition] and the examples of the
    specification. *)
Example CheckCondition_tests :
  map (CheckCondition testFront)
    ["draft=true"; "draft=false"; "tags contains 'beta'"; "tags contains 123";
     "tags contains 'release'"; "tags contains 'missing'"; "date<2024-01-01";
     "date<2022-01-01"]
  = map Some [true; false; true; true; true; false; true; false].
Proof. vm_compute. reflexivity. Qed.

Example SplitFrontmatter_tests :
  SplitFrontmatter ("---" +:+ nl +:+ "title: Test" +:+ nl +:+ "---" +:+ nl +:+ "Body text")
    = Some ("---", "title: Test" +:+ nl, nl +:+ "Body text") /\
  SplitFrontmatter ("{" +:+ nl +:+ " x" +:+ nl +:+ "}" +:+ nl +:+ "Body")
    = Some ("{", "{" +:+ nl +:+ " x" +:+ nl +:+ "}", "Body") /\
  SplitFrontmatter "Body text without fm" = Some ("", "", "Body text without fm").
Proof. vm_compute. done. Qed.

(** ** The empty expression *)

(** C1, as the specification states it, fails: on the document
    [{draft: true}] the empty expression evaluates to false, not true. *)
Lemma empty_expression_is_false_on_draft :
  EvaluateConditions {[ "draft" := VBool true ]} "" = Some false.
Proof. vm_compute. reflexivity. Qed.

(** C1 (amended). For every document, the empty expression evaluates to
    false: splitting it yields one empty disjunct with one empty conjunct,
    which has none of the clause shapes; the disjunct list is never empty.
    That an absent condition lets every document through is the caller's
    doing: [processFile] does not evaluate an empty condition. *)
Theorem empty_expression_evaluates_false (front : gmap string Value) :
  strings.Split "" "||" = [""] /\
  strings.Split "" "&&" = [""] /\
  EvaluateConditions front "" = Some false /\
  conditionRejects "" front = Some false.
Proof. repeat split. Qed.

(** ** The order of the clause shapes *)

Lemma CheckCondition_dispatch (front : gmap string Value) (cond : string) :
  CheckCondition front cond =
    if isDateShape cond then dateRule front cond
    else if strings.Contains cond "contains" then membershipRule front cond
    else if strings.Contains cond "=" then equalityRule front cond
    else Some false.
Proof.
  unfold CheckCondition, isDateShape, dateRule, membershipRule, equalityRule.
  destruct (strings.Contains cond "<" && strings.HasPrefix cond "date"); [done|].
  destruct (strings.Contains cond "contains").
  { destruct (strings.Split cond "contains" !! 0%nat); [|done].
    by destruct (strings.Split cond "contains" !! 1%nat). }
  destruct (strings.Contains cond "="); [|done].
  destruct (strings.Split cond "=" !! 0%nat); [|done].
  by destruct (strings.Split cond "=" !! 1%nat).
Qed.

(** C6. [CheckCondition] tries the date rule first (the clause contains
    [<] and starts with [date]), else the membership rule (the clause
    contains [contains]), else the equality rule (the clause contains [=]);
    the first shape that matches decides the result, whatever the later
    rules would say, and a clause of no shape is false. *)
Theorem CheckCondition_priority (front : gmap string Value) (cond : string) :
  CheckCondition front cond =
    if strings.Contains cond "<" && strings.HasPrefix cond "date"
    then dateRule front cond
    else if strings.Contains cond "contains" then membershipRule front cond
    else if strings.Contains cond "=" then equalityRule front cond
    else Some false.
Proof. apply CheckCondition_dispatch. Qed.

(** A clause that holds by the equality rule, and is false because it also
    has the shape of a membership clause. *)
Example membership_shadows_equality :
  CheckCondition {[ "k" := VString "v" ]} "k=v=contains" = Some false /\
  equalityRule {[ "k" := VString "v" ]} "k=v=contains" = Some true.
Proof. vm_compute. done. Qed.

(** A clause that holds by the membership rule, and is false because it also
    has the shape of a date clause. *)
Example date_shadows_membership :
  CheckCondition {[ "date<" := VString "x" ]} "date<contains x" = Some false /\
  membershipRule {[ "date<" := VString "x" ]} "date<contains x" = Some true.
Proof. vm_compute. done. Qed.

(** ** The membership rule *)

Lemma hasItem_elem_of (flat : list string) (needle : string) :
  hasItem flat needle = true <-> needle ∈ flat.
Proof.
  induction flat as [|item flat IH]; simpl.
  - split; [done|by intros ?%elem_of_nil].
  - destruct (String.eqb item needle) eqn:E.
    + apply String.eqb_eq in E as ->. split; [intros _; left|done].
    + apply String.eqb_neq in E. rewrite IH, elem_of_cons.
      split; [by right|]. by intros [->|?].
Qed.

(** C5, as the specification states it, fails: with two occurrences of
    [contains] the code takes the text between the first and the second as
    the needle, not everything after the first. *)
Lemma membership_needle_is_second_piece :
  CheckCondition {[ "tags" := VSlice [VString "contains"] ]} "tags contains 'contains'"
    = Some false /\
  membershipAsSpecified {[ "tags" := VSlice [VString "contains"] ]} "tags contains 'contains'"
    = true.
Proof. vm_compute. done. Qed.

(** Nor is one layer of quotes stripped: every leading and trailing quote
    character goes. *)
Example membership_strips_every_quote :
  CheckCondition {[ "tags" := VSlice [VString "a"] ]} "tags contains ''a''" = Some true /\
  membershipAsSpecified {[ "tags" := VSlice [VString "a"] ]} "tags contains ''a''" = false.
Proof. vm_compute. done. Qed.

(** C5 (amended). For a clause that contains [contains] and lacks the date
    shape, the clause is split on every [contains]: the key is the text
    before the first one, trimmed; the needle is the text between the first
    and the second one (up to the end of the clause when there is no second
    one), trimmed and then stripped of every leading and trailing single or
    double quote; the check is true iff the key is present and the needle
    equals an element of its flattened value. *)
Theorem membership_rule (front : gmap string Value) (clause : string) :
  isDateShape clause = false ->
  strings.Contains clause "contains" = true ->
  let key := strings.TrimSpace (before "contains" clause) in
  let needle :=
    strings.Trim
      (strings.TrimSpace (before "contains" (after "contains" clause)))
      quoteChars in
  clause = before "contains" clause +:+ "contains" +:+ after "contains" clause /\
  exists b : bool,
    CheckCondition front clause = Some b /\
    (b = true <->
     exists val, front !! key = Some val /\ needle ∈ flattenToStrings val).
Proof.
  intros Hd Hc key needle. split; [by apply before_sep_after|].
  rewrite CheckCondition_dispatch, Hd, Hc. unfold membershipRule.
  destruct (Split_pieces clause "contains" ltac:(done) Hc) as [-> ->].
  cbn [mbind option_bind]. fold key. fold needle.
  destruct (front !! key) as [val|] eqn:Hk.
  - eexists; split; [done|]. rewrite hasItem_elem_of.
    split; [by exists val|]. by intros (? & [= <-] & ?).
  - exists false; split; [done|]. split; [done|]. by intros (? & [= ] & ?).
Qed.

Lemma membership_rule_witness :
  exists b : bool,
    CheckCondition testFront "tags contains 'beta'" = Some b /\
    (b = true <->
     exists val, testFront !! "tags" = Some val /\ "beta" ∈ flattenToStrings val).
Proof.
  exact (proj2 (membership_rule testFront "tags contains 'beta'" eq_refl eq_refl)).
Defined.

(** ** The date rule *)

(** C8 fails on the code at a cutoff that does not parse: the error of
    [time.Parse] is dropped, the zero time (1 January of year 1) stands in
    for the cutoff, and a document dated in year 0 is before it. *)
Theorem date_rule_ignores_cutoff_error :
  time_Parse "soon" = None /\
  CheckCondition {[ "date" := VString "0000-12-31" ]} "date<soon" = Some true.
Proof. vm_compute. done. Qed.

(** With a cutoff that parses, the date rule is as the specification has
    it: true iff the document has a [date] that parses and is strictly
    before the cutoff. *)
Lemma date_rule_with_parsed_cutoff (front : gmap string Value) (clause : string)
    (cutoffTime : Time) :
  isDateShape clause = true ->
  time_Parse (strings.TrimSpace (before "<" (after "<" clause))) = Some cutoffTime ->
  exists b : bool,
    CheckCondition front clause = Some b /\
    (b = true <->
     exists val postTime,
       front !! "date" = Some val /\ time_Parse (fmtV val) = Some postTime /\
       Before postTime cutoffTime = true).
Proof.
  intros Hd Hcut. rewrite CheckCondition_dispatch, Hd. unfold dateRule.
  apply andb_true_iff in Hd as [Hlt _].
  destruct (Split_pieces clause "<" ltac:(done) Hlt) as [_ ->].
  cbn [mbind option_bind]. rewrite Hcut.
  change (default zeroTime (Some cutoffTime)) with cutoffTime.
  destruct (front !! "date") as [val|].
  - destruct (time_Parse (fmtV val)) as [postTime|] eqn:Hpost.
    + eexists; split; [done|]. split.
      * intros Hb. by exists val, postTime.
      * intros (v' & p' & Hv & Hp & Hb). by simplify_eq.
    + exists false; split; [done|]. split; [done|].
      intros (v' & p' & Hv & Hp & _). by simplify_eq.
  - exists false; split; [done|]. split; [done|]. by intros (? & ? & [= ] & _).
Qed.

(** The examples of the specification for the date rule. *)
Example date_rule_examples :
  EvaluateConditions {[ "date" := VString "2023-01-01" ]} "date<2024-01-01" = Some true /\
  EvaluateConditions {[ "date" := VString "2024-01-01" ]} "date<2023-01-01" = Some false /\
  EvaluateConditions {[ "date" := VString "2023-01-01" ]} "date<2023-01-01" = Some false /\
  EvaluateConditions {[ "date" := VString "2023-02-30" ]} "date<2024-01-01" = Some false /\
  EvaluateConditions {[ "title" := VString "x" ]} "date<2024-01-01" = Some false.
Proof. vm_compute. done. Qed.

(** ** Splitting a document with no closing fence *)

Lemma SplitN_2_no_separator (s sep : string) :
  strings.Contains s sep = false -> strings.SplitN s sep 2 = [s].
Proof.
  intros H%Contains_false_Index.
  assert (forall n, strings.genSplit n s sep = [s]) as Hn
    by (intros [|n]; simpl; by rewrite ?H).
  unfold strings.SplitN. simpl. apply Hn.
Qed.

(** C9. On input that opens with a [---] line (or a [+++] line) and has no
    further [---] (or [+++]) after it, [SplitFrontmatter] returns nothing:
    [SplitN] yields a single part and [parts[1]] is out of range. *)
Theorem SplitFrontmatter_panics_without_closing_fence (rest : string) :
  (strings.Contains rest "---" = false ->
   SplitFrontmatter ("---" +:+ nl +:+ rest) = None) /\
  (strings.Contains rest "+++" = false ->
   SplitFrontmatter ("+++" +:+ nl +:+ rest) = None).
Proof.
  split; intros H; unfold SplitFrontmatter; simpl;
    by rewrite HasPrefix_nil, (SplitN_2_no_separator _ _ H).
Qed.

Lemma SplitFrontmatter_panics_without_closing_fence_witness :
  SplitFrontmatter ("---" +:+ nl +:+ "title: Test" +:+ nl) = None.
Proof.
  apply (proj1 (SplitFrontmatter_panics_without_closing_fence ("title: Test" +:+ nl))).
  vm_compute. reflexivity.
Defined.

(** ** The order of strings *)

Lemma ascii_compare_refl (c : ascii) : Ascii.compare c c = Eq.
Proof. unfold Ascii.compare. apply N.compare_refl. Qed.

Lemma ascii_compare_trans (a b c : ascii) (o : comparison) :
  Ascii.compare a b = o -> Ascii.compare b c = o -> Ascii.compare a c = o.
Proof.
  unfold Ascii.compare. destruct o; intros H1 H2.
  - apply N.compare_eq_iff in H1, H2. apply N.compare_eq_iff. congruence.
  - rewrite N.compare_lt_iff in *. by etrans.
  - rewrite N.compare_gt_iff in *. by etrans.
Qed.

Lemma string_compare_le_trans (a b c : string) :
  String.compare a b <> Gt -> String.compare b c <> Gt -> String.compare a c <> Gt.
Proof.
  revert b c. induction a as [|x a IH]; intros [|y b] [|z c]; simpl; try done.
  destruct (Ascii.compare x y) eqn:Hxy, (Ascii.compare y z) eqn:Hyz; try done.
  - rewrite (ascii_compare_trans _ _ _ _ Hxy Hyz). apply IH.
  - apply Ascii.compare_eq_iff in Hxy as ->. by rewrite Hyz.
  - apply Ascii.compare_eq_iff in Hyz as ->. by rewrite Hxy.
  - by rewrite (ascii_compare_trans _ _ _ _ Hxy Hyz).
Qed.

Lemma strLe_spec (a b : string) : strLe a b <-> String.compare a b <> Gt.
Proof.
  unfold strLe, String.leb. by destruct (String.compare a b).
Qed.

#[global] Instance strLe_trans : Transitive strLe.
Proof. intros a b c. rewrite !strLe_spec. apply string_compare_le_trans. Qed.

#[global] Instance strLe_total : Total strLe.
Proof.
  intros a b. unfold strLe.
  destruct (String.leb_total a b) as [->| ->]; [by left|by right].
Qed.

#[global] Instance strLe_antisym : AntiSymm (=) strLe.
Proof.
  intros a b Hab Hba. apply String.leb_antisym; by apply Is_true_true.
Qed.

Lemma sortStrings_sorted (l : list string) : StronglySorted strLe (sortStrings l).
Proof. apply (StronglySorted_merge_sort strLe). Qed.

Lemma sortStrings_perm (l : list string) : sortStrings l ≡ₚ l.
Proof. apply merge_sort_Permutation. Qed.

(** Sorting forgets the order it was given. *)
Lemma sortStrings_proper (l1 l2 : list string) :
  l1 ≡ₚ l2 -> sortStrings l1 = sortStrings l2.
Proof.
  intros H. apply (StronglySorted_unique strLe); try apply sortStrings_sorted.
  by rewrite !sortStrings_perm.
Qed.

(** ** The encoder, loop by loop *)

Lemma append_assoc (a b c : string) : (a +:+ b) +:+ c = a +:+ (b +:+ c).
Proof. induction a as [|x a IH]; simpl; [done|by rewrite IH]. Qed.

Lemma append_nil_r (a : string) : a +:+ "" = a.
Proof. induction a as [|x a IH]; simpl; [done|by rewrite IH]. Qed.

Lemma run_bind {A B : Type} (m : Run A) (k : A -> Run B) (h : Heap) :
  (m ≫= k) h = let (a, h') := m h in k a h'.
Proof. reflexivity. Qed.

Lemma heap_insert_id (h : Heap) (r : ref) (c : gmap string Value) :
  maps h !! r = Some c -> mkHeap (<[r := c]> (maps h)) (ranges h) = h.
Proof. destruct h as [ms n]; simpl. intros H. by rewrite insert_id. Qed.

Lemma contents_lookup (h : Heap) (r : ref) (c : gmap string Value) :
  maps h !! r = Some c -> contents h r = c.
Proof. unfold contents. by intros ->. Qed.

Lemma copyEntries_run (fc : ref) (entries : list (string * Value)) :
  forall (h : Heap) (c : gmap string Value),
    maps h !! fc = Some c ->
    copyEntries fc entries h
    = (tt, mkHeap (<[fc := insertAll c entries]> (maps h)) (ranges h)).
Proof.
  induction entries as [|[k v] rest IH]; intros h c Hc; simpl.
  - unfold ret. by rewrite heap_insert_id.
  - rewrite run_bind. unfold mapAssign. rewrite (contents_lookup _ _ _ Hc).
    rewrite (IH _ (<[k := v]> c)); simpl; [|by rewrite lookup_insert_eq].
    by rewrite insert_insert_eq.
Qed.

Lemma insertAll_union (entries : list (string * Value)) :
  forall c : gmap string Value,
    NoDup entries.*1 -> insertAll c entries = list_to_map entries ∪ c.
Proof.
  induction entries as [|[k v] rest IH]; intros c Hnd; simpl.
  - by rewrite (left_id_L ∅ (∪)).
  - apply NoDup_cons in Hnd as [Hk Hnd].
    unfold insertAll in *. simpl. rewrite (IH _ Hnd).
    rewrite <- insert_union_r; [|by apply not_elem_of_list_to_map_1].
    by rewrite insert_union_l.
Qed.

Lemma insertAll_range (m : gmap string Value) (entries : list (string * Value)) :
  entries ≡ₚ map_to_list m -> insertAll ∅ entries = m.
Proof.
  intros Hp. rewrite insertAll_union.
  - rewrite (right_id_L ∅ (∪)).
    rewrite (list_to_map_proper entries (map_to_list m)); [|..|done].
    + apply list_to_map_to_list.
    + rewrite Hp. apply NoDup_fst_map_to_list.
  - rewrite Hp. apply NoDup_fst_map_to_list.
Qed.

Lemma addOrdered_run (scans : string -> bool) (fc : ref) (fields : list string) :
  forall (out : string) (h : Heap) (c : gmap string Value),
    maps h !! fc = Some c ->
    addOrdered scans fc fields out h
    = ((orderedPure (addYAMLField scans) c fields out).1,
       mkHeap (<[fc := (orderedPure (addYAMLField scans) c fields out).2]> (maps h))
              (ranges h)).
Proof.
  induction fields as [|f rest IH]; intros out h c Hc; simpl.
  - unfold ret. by rewrite heap_insert_id.
  - rewrite run_bind. unfold mapIndex. rewrite (contents_lookup _ _ _ Hc).
    destruct (c !! f) as [v|] eqn:Hf.
    + rewrite run_bind. unfold mapDelete. rewrite (contents_lookup _ _ _ Hc).
      erewrite IH; [|simpl; apply lookup_insert_eq].
      simpl. by rewrite insert_insert_eq.
    + by apply IH.
Qed.

Lemma addFields_run (add : string -> string -> Value -> string) (fc : ref)
    (fields : list string) :
  forall (out : string) (h : Heap),
    addFields add fc fields out h
    = (foldl (fun o k => add o k (valueAt (contents h fc) k)) out fields, h).
Proof.
  induction fields as [|f rest IH]; intros out h; simpl; [done|].
  rewrite run_bind. unfold mapIndex. by rewrite IH.
Qed.

Lemma addYAMLField_append (scans : string -> bool) (out k : string) (v : Value) :
  addYAMLField scans out k v = out +:+ yamlField scans k v.
Proof. by destruct v. Qed.

Lemma addTOMLField_append (tm : string -> Value -> option string) (out k : string) (v : Value) :
  addTOMLField tm out k v = out +:+ tomlField tm k v.
Proof.
  unfold tomlField. destruct v; simpl; try done; by destruct (tm k _).
Qed.

Section Loops.
Variable add : string -> string -> Value -> string.
Variable line : string -> Value -> string.
Hypothesis add_append : forall out k v, add out k v = out +:+ line k v.

Lemma foldl_fieldsText (m : gmap string Value) (keys : list string) :
  forall out : string,
    foldl (fun o k => add o k (valueAt m k)) out keys
    = out +:+ fieldsText line m keys.
Proof.
  unfold fieldsText.
  induction keys as [|k keys IH]; intros out; simpl.
  - by rewrite append_nil_r.
  - by rewrite IH, add_append, append_assoc.
Qed.

Lemma fieldsText_app (m : gmap string Value) (l1 l2 : list string) :
  fieldsText line m (l1 ++ l2) = fieldsText line m l1 +:+ fieldsText line m l2.
Proof.
  unfold fieldsText. induction l1 as [|k l1 IH]; simpl; [done|].
  by rewrite IH, append_assoc.
Qed.

Lemma fieldsText_ext (m1 m2 : gmap string Value) (keys : list string) :
  (forall k, k ∈ keys -> m1 !! k = m2 !! k) ->
  fieldsText line m1 keys = fieldsText line m2 keys.
Proof.
  unfold fieldsText, valueAt. induction keys as [|k keys IH]; intros H; simpl; [done|].
  rewrite (H k) by left. f_equal. apply IH. intros k' Hk'. apply H. by right.
Qed.

Lemma present_delete (c : gmap string Value) (f : string) (l : list string) :
  f ∉ l ->
  filter (fun k => is_Some (delete f c !! k)) l = filter (fun k => is_Some (c !! k)) l.
Proof.
  induction l as [|k l IH]; intros Hf; [done|].
  apply not_elem_of_cons in Hf as [Hne Hf].
  rewrite !filter_cons, IH by done.
  by rewrite lookup_delete_ne.
Qed.

Lemma filter_not_in_cons_None (c : gmap string Value) (f : string) (l : list string) :
  c !! f = None ->
  filter (fun kv : string * Value => kv.1 ∉ f :: l) c
  = filter (fun kv : string * Value => kv.1 ∉ l) c.
Proof.
  intros Hf. apply map_filter_strong_ext. intros k v; simpl.
  rewrite not_elem_of_cons. split; [naive_solver|].
  intros [Hk Hv]. repeat split; try done. intros ->. congruence.
Qed.

Lemma filter_not_in_cons_delete (c : gmap string Value) (f : string) (l : list string) :
  filter (fun kv : string * Value => kv.1 ∉ l) (delete f c)
  = filter (fun kv : string * Value => kv.1 ∉ f :: l) c.
Proof.
  apply map_filter_strong_ext. intros k v; simpl.
  rewrite not_elem_of_cons, lookup_delete_Some. naive_solver.
Qed.

(** The loop over the priority fields writes those that are present, in
    their order, and leaves the other fields in the copy. *)
Lemma orderedPure_spec (fields : list string) :
  forall (c : gmap string Value) (out : string),
    NoDup fields ->
    orderedPure add c fields out
    = (out +:+ fieldsText line c (filter (fun k => is_Some (c !! k)) fields),
       filter (fun kv : string * Value => kv.1 ∉ fields) c).
Proof.
  induction fields as [|f rest IH]; intros c out Hnd; simpl.
  - rewrite append_nil_r. f_equal. symmetry. apply map_filter_id.
    intros k v _. simpl. apply not_elem_of_nil.
  - apply NoDup_cons in Hnd as [Hf Hnd].
    destruct (c !! f) as [v|] eqn:Hcf.
    + rewrite IH by done. rewrite filter_cons_True by (by exists v).
      rewrite present_delete by done. rewrite filter_not_in_cons_delete.
      f_equal. rewrite add_append, append_assoc. f_equal.
      change (fieldsText line c (f :: ?l))
        with (line f (valueAt c f) +:+ fieldsText line c l).
      unfold valueAt at 1. rewrite Hcf. simpl.
      f_equal. apply fieldsText_ext. intros k Hk.
      apply list_elem_of_filter in Hk as [_ Hk].
      apply lookup_delete_ne. by intros ->.
    + rewrite IH by done. rewrite filter_cons_False by (intros [? ?]; simpl in *; congruence).
      by rewrite filter_not_in_cons_None.
Qed.

End Loops.

(** ** The encoder as a function of the document *)

Lemma NoDup_orderedFields : NoDup orderedFields.
Proof. apply (bool_decide_unpack _). vm_compute. reflexivity. Qed.

Section EncoderFacts.
Variable scansAsFloat : string -> bool.
Variable toml_Marshal : string -> Value -> option string.
Variable json_other : nat -> Value -> option string.
Variable rangeOrder : nat -> gmap string Value -> list (string * Value).

(** A [range] loop visits every entry of the map once, in some order. *)
Hypothesis range_visits_all : forall n m, rangeOrder n m ≡ₚ map_to_list m.

#[local] Abbreviation Marshal :=
  (MarshalFrontmatter scansAsFloat toml_Marshal json_other rangeOrder).

Lemma fresh_ref_ne (h : Heap) (front : ref) (m : gmap string Value) :
  maps h !! front = Some m -> front <> fresh (dom (maps h)).
Proof.
  intros Hm Heq. apply (is_fresh (dom (maps h))).
  rewrite <- Heq. apply elem_of_dom. by exists m.
Qed.

(** The copy: a new map with the entries of [front], whatever the order of
    the loop. *)
Lemma copy_phase {A : Type} (k : ref -> Run A) (front : ref) (h : Heap)
    (m : gmap string Value) :
  maps h !! front = Some m ->
  (frontCopy ← makeMap;
   entries ← mapRange rangeOrder front;
   copyEntries frontCopy entries;; k frontCopy) h
  = k (fresh (dom (maps h)))
      (mkHeap (<[fresh (dom (maps h)) := m]> (maps h)) (S (ranges h))).
Proof.
  intros Hm. pose proof (fresh_ref_ne _ _ _ Hm) as Hne.
  rewrite run_bind. unfold makeMap. rewrite run_bind. unfold mapRange, contents.
  simpl. rewrite lookup_insert_ne by done. rewrite Hm. simpl.
  rewrite run_bind.
  erewrite copyEntries_run; [|simpl; apply lookup_insert_eq].
  simpl. rewrite insert_insert_eq.
  by rewrite (insertAll_range m).
Qed.

Lemma sorted_range_keys (n : nat) (m : gmap string Value) :
  sortStrings (map fst (rangeOrder n m)) = sortStrings (map fst (map_to_list m)).
Proof. apply sortStrings_proper. by rewrite range_visits_all. Qed.

Lemma remainingOf_lookup (m : gmap string Value) (k : string) :
  k ∈ map fst (map_to_list (remainingOf m)) -> remainingOf m !! k = m !! k.
Proof.
  intros Hk. apply list_elem_of_fmap in Hk as ([k' v] & -> & Hkv). simpl.
  apply elem_of_map_to_list in Hkv. rewrite Hkv. symmetry.
  unfold remainingOf in Hkv. by apply map_lookup_filter_Some in Hkv as [? _].
Qed.

(** yaml-style: the priority fields that are present, then the other fields
    sorted; the copy is left with the other fields. *)
Lemma Marshal_yaml (delimiter : string) (front : ref) (h : Heap)
    (m : gmap string Value) :
  maps h !! front = Some m ->
  String.eqb delimiter YamlDelimiter = true ->
  Marshal delimiter front h
  = (Ok (fieldsText (yamlField scansAsFloat) m
           (priorityPresent m ++ sortStrings (map fst (map_to_list (remainingOf m))))),
     mkHeap (<[fresh (dom (maps h)) := remainingOf m]> (maps h)) (S (S (ranges h)))).
Proof.
  intros Hm Hy. unfold MarshalFrontmatter. rewrite (copy_phase _ _ _ _ Hm).
  rewrite Hy. rewrite run_bind.
  erewrite addOrdered_run; [|simpl; apply lookup_insert_eq].
  rewrite (orderedPure_spec _ _ (addYAMLField_append scansAsFloat))
    by apply NoDup_orderedFields.
  cbn [fst snd]. rewrite run_bind. unfold mapRange at 1. cbn [maps ranges].
  unfold contents at 1. cbn [maps]. rewrite lookup_insert_eq. cbn [default].
  rewrite insert_insert_eq. rewrite run_bind, addFields_run.
  unfold ret. f_equal. f_equal.
  rewrite (foldl_fieldsText _ _ (addYAMLField_append scansAsFloat)).
  unfold contents. cbn [maps]. rewrite lookup_insert_eq. cbn [default].
  rewrite sorted_range_keys. fold (remainingOf m). fold (priorityPresent m).
  rewrite (fieldsText_app (yamlField scansAsFloat)). simpl. f_equal.
  apply fieldsText_ext. intros k Hk. apply remainingOf_lookup.
  by rewrite <- (sortStrings_perm (map fst _)).
Qed.

(** toml-style: every field, sorted; the copy keeps every field. *)
Lemma Marshal_toml (delimiter : string) (front : ref) (h : Heap)
    (m : gmap string Value) :
  maps h !! front = Some m ->
  String.eqb delimiter YamlDelimiter = false ->
  String.eqb delimiter TomlDelimiter = true ->
  Marshal delimiter front h
  = (Ok (fieldsText (tomlField toml_Marshal) m
           (sortStrings (map fst (map_to_list m)))),
     mkHeap (<[fresh (dom (maps h)) := m]> (maps h)) (S (S (ranges h)))).
Proof.
  intros Hm Hy Ht. unfold MarshalFrontmatter. rewrite (copy_phase _ _ _ _ Hm).
  rewrite Hy, Ht. rewrite run_bind. unfold mapRange at 1. cbn [maps ranges].
  unfold contents at 1. cbn [maps]. rewrite lookup_insert_eq. cbn [default].
  rewrite run_bind, addFields_run.
  unfold ret. f_equal. f_equal.
  rewrite (foldl_fieldsText _ _ (addTOMLField_append toml_Marshal)).
  unfold contents. cbn [maps]. rewrite lookup_insert_eq. cbn [default].
  by rewrite sorted_range_keys.
Qed.

(** json-style and any other delimiter: the copy is read, or not used. *)
Lemma Marshal_other (delimiter : string) (front : ref) (h : Heap)
    (m : gmap string Value) :
  maps h !! front = Some m ->
  String.eqb delimiter YamlDelimiter = false ->
  String.eqb delimiter TomlDelimiter = false ->
  Marshal delimiter front h
  = (if String.eqb delimiter JsonDelimiter
     then match json_MarshalIndent json_other m with
          | Some bytes => Ok bytes
          | None => Err marshalError
          end
     else Err (errorf ("unsupported frontmatter format: " +:+ delimiter)),
     mkHeap (<[fresh (dom (maps h)) := m]> (maps h)) (S (ranges h))).
Proof.
  intros Hm Hy Ht. unfold MarshalFrontmatter. rewrite (copy_phase _ _ _ _ Hm).
  rewrite Hy, Ht. destruct (String.eqb delimiter JsonDelimiter); [|done].
  rewrite run_bind. unfold mapRead, contents. cbn [maps].
  by rewrite lookup_insert_eq.
Qed.

End EncoderFacts.

(** ** The encoder writes to its copy only *)

Section Frame.
Variable fc : ref.

Lemma writesOnly_ret {A : Type} (a : A) : writesOnly fc (mret a).
Proof. by intros h r _. Qed.

Lemma writesOnly_bind {A B : Type} (m : Run A) (k : A -> Run B) :
  writesOnly fc m -> (forall a, writesOnly fc (k a)) -> writesOnly fc (m ≫= k).
Proof.
  intros Hm Hk h r Hr. rewrite run_bind.
  specialize (Hm h r Hr). destruct (m h) as [a h']. simpl in Hm.
  by rewrite Hk.
Qed.

Lemma writesOnly_mapAssign (k : string) (v : Value) : writesOnly fc (mapAssign fc k v).
Proof. intros h r Hr. simpl. by rewrite lookup_insert_ne. Qed.

Lemma writesOnly_mapDelete (k : string) : writesOnly fc (mapDelete fc k).
Proof. intros h r Hr. simpl. by rewrite lookup_insert_ne. Qed.

Lemma writesOnly_mapIndex (r' : ref) (k : string) : writesOnly fc (mapIndex r' k).
Proof. by intros h r _. Qed.

Lemma writesOnly_mapRead (r' : ref) : writesOnly fc (mapRead r').
Proof. by intros h r _. Qed.

Lemma writesOnly_mapRange ro (r' : ref) : writesOnly fc (mapRange ro r').
Proof. by intros h r _. Qed.

Lemma writesOnly_copyEntries (entries : list (string * Value)) :
  writesOnly fc (copyEntries fc entries).
Proof.
  induction entries as [|[k v] rest IH]; simpl.
  - apply (writesOnly_ret tt).
  - apply writesOnly_bind; [apply writesOnly_mapAssign|done].
Qed.

Lemma writesOnly_addOrdered scans (fields : list string) :
  forall out, writesOnly fc (addOrdered scans fc fields out).
Proof.
  induction fields as [|f rest IH]; intros out; simpl.
  - apply (writesOnly_ret out).
  - apply writesOnly_bind; [apply writesOnly_mapIndex|].
    intros [v|]; [|done].
    apply writesOnly_bind; [apply writesOnly_mapDelete|done].
Qed.

Lemma writesOnly_addFields add (fields : list string) :
  forall out, writesOnly fc (addFields add fc fields out).
Proof.
  induction fields as [|f rest IH]; intros out; simpl.
  - apply (writesOnly_ret out).
  - apply writesOnly_bind; [apply writesOnly_mapIndex|done].
Qed.

End Frame.

(** C10. [MarshalFrontmatter] leaves the caller's map as it was, for every
    delimiter and whatever the order of its [range] loops: after the call
    [front], and every other map there was, holds the same keys bound to the
    same values; the priority keys are deleted from the copy only. *)
Theorem MarshalFrontmatter_leaves_front_unchanged
    (scansAsFloat : string -> bool)
    (toml_Marshal : string -> Value -> option string)
    (json_other : nat -> Value -> option string)
    (rangeOrder : nat -> gmap string Value -> list (string * Value))
    (delimiter : string) (front : ref) (h : Heap) :
  is_Some (maps h !! front) ->
  let h' := (MarshalFrontmatter scansAsFloat toml_Marshal json_other rangeOrder
               delimiter front h).2 in
  contents h' front = contents h front /\
  (forall r : ref, is_Some (maps h !! r) -> maps h' !! r = maps h !! r).
Proof.
  intros Hfront h'.
  assert (forall r : ref, is_Some (maps h !! r) -> maps h' !! r = maps h !! r) as Hall.
  { intros r [m Hr]. pose proof (fresh_ref_ne _ _ _ Hr) as Hne.
    subst h'. unfold MarshalFrontmatter. rewrite run_bind. unfold makeMap.
    set (fc := fresh (dom (maps h))) in *.
    set (h1 := mkHeap (<[fc := ∅]> (maps h)) (ranges h)).
    transitivity (maps h1 !! r); [|simpl; by rewrite lookup_insert_ne].
    match goal with
    | |- maps (?c h1).2 !! r = _ =>
        cut (writesOnly fc c); [intros Hw; exact (Hw h1 r Hne)|]
    end.
    apply writesOnly_bind; [apply writesOnly_mapRange|].
    intros entries. apply writesOnly_bind; [apply writesOnly_copyEntries|].
    intros _. destruct (String.eqb delimiter YamlDelimiter).
    { apply writesOnly_bind; [apply writesOnly_addOrdered|]. intros out.
      apply writesOnly_bind; [apply writesOnly_mapRange|]. intros rem.
      apply writesOnly_bind; [apply writesOnly_addFields|]. intros out'.
      apply writesOnly_ret. }
    destruct (String.eqb delimiter TomlDelimiter).
    { apply writesOnly_bind; [apply writesOnly_mapRange|]. intros rem.
      apply writesOnly_bind; [apply writesOnly_addFields|]. intros out'.
      apply writesOnly_ret. }
    destruct (String.eqb delimiter JsonDelimiter).
    { apply writesOnly_bind; [apply writesOnly_mapRead|]. intros m'.
      apply writesOnly_ret. }
    apply writesOnly_ret. }
  split; [|done]. unfold contents. by rewrite Hall.
Qed.

Lemma MarshalFrontmatter_leaves_front_unchanged_witness :
  let h' := (MarshalFrontmatter scansNothing tomlFails jsonFails listedOrder
               YamlDelimiter 1%positive (heapOf pageFront)).2 in
  contents h' 1%positive = contents (heapOf pageFront) 1%positive /\
  (forall r : ref, is_Some (maps (heapOf pageFront) !! r) ->
                   maps h' !! r = maps (heapOf pageFront) !! r).
Proof.
  apply (MarshalFrontmatter_leaves_front_unchanged scansNothing tomlFails jsonFails
           listedOrder YamlDelimiter 1%positive (heapOf pageFront)).
  exists pageFront. reflexivity.
Defined.

(** The copy does lose its priority keys in the yaml-style run. *)
Example yaml_run_deletes_from_the_copy :
  let h' := (MarshalFrontmatter scansNothing tomlFails jsonFails listedOrder
               YamlDelimiter 1%positive (heapOf pageFront)).2 in
  contents h' 1%positive = pageFront /\
  contents h' 2%positive = {[ "weight" := VInt 3; "aliases" := VStrings ["/old"] ]}.
Proof. vm_compute. done. Qed.

(** ** The order of the fields *)

(** C2, as the specification states it, fails for the toml-style tag: the
    fields [{tags, title, date}] come out as date, tags, title. *)
Lemma toml_puts_date_before_title :
  (MarshalFrontmatter scansNothing tomlFails jsonFails listedOrder
     TomlDelimiter 1%positive (heapOf postFront)).1
  = Ok ("date = " +:+ fmtQ "2023-01-01" +:+ nl +:+
        "tags = [" +:+ fmtQ "a" +:+ ", " +:+ fmtQ "b" +:+ "]" +:+ nl +:+
        "title = " +:+ fmtQ "x" +:+ nl).
Proof. vm_compute. reflexivity. Qed.

(** C2 (amended). Whatever order the [range] loops visit the map in:
    the yaml-style text is the priority fields title, date, draft, series,
    categories, tags that are present, in that order, followed by the other
    fields in lexicographic order of their keys; the toml-style text is all
    the fields in lexicographic order of their keys, with no priority
    sequence; and so are the members of the json-style object. *)
Theorem encode_field_order
    (scansAsFloat : string -> bool)
    (toml_Marshal : string -> Value -> option string)
    (json_other : nat -> Value -> option string)
    (rangeOrder : nat -> gmap string Value -> list (string * Value))
    (front : ref) (h : Heap) (m : gmap string Value) :
  (forall n m', rangeOrder n m' ≡ₚ map_to_list m') ->
  maps h !! front = Some m ->
  let encode := fun delimiter =>
    (MarshalFrontmatter scansAsFloat toml_Marshal json_other rangeOrder
       delimiter front h).1 in
  (exists rest : list string,
     rest ≡ₚ map fst (map_to_list (remainingOf m)) /\
     StronglySorted strLe rest /\
     encode YamlDelimiter
     = Ok (fieldsText (yamlField scansAsFloat) m (priorityPresent m ++ rest))) /\
  (exists keys : list string,
     keys ≡ₚ map fst (map_to_list m) /\
     StronglySorted strLe keys /\
     encode TomlDelimiter = Ok (fieldsText (tomlField toml_Marshal) m keys) /\
     encode JsonDelimiter
     = match sequenceOpt (map (jsonMember json_other m) keys) with
       | Some [] => Ok "{}"
       | Some members =>
           Ok ("{" +:+ newline 1 +:+ strings.Join members ("," +:+ newline 1)
               +:+ newline 0 +:+ "}")
       | None => Err marshalError
       end).
Proof.
  intros Hrange Hm encode. split.
  - exists (sortStrings (map fst (map_to_list (remainingOf m)))).
    split; [apply sortStrings_perm|]. split; [apply sortStrings_sorted|].
    subst encode. cbv beta. by erewrite Marshal_yaml.
  - exists (sortStrings (map fst (map_to_list m))).
    split; [apply sortStrings_perm|]. split; [apply sortStrings_sorted|].
    subst encode. cbv beta. split; [by erewrite Marshal_toml|].
    erewrite Marshal_other; [|done..]. cbn [fst].
    change (String.eqb JsonDelimiter JsonDelimiter) with true. cbv iota.
    unfold json_MarshalIndent.
    destruct (sequenceOpt _) as [[|]|]; done.
Qed.

Lemma listedOrder_visits_all (n : nat) (m : gmap string Value) :
  listedOrder n m ≡ₚ map_to_list m.
Proof. reflexivity. Qed.

Lemma reversedOrder_visits_all (n : nat) (m : gmap string Value) :
  reversedOrder n m ≡ₚ map_to_list m.
Proof. unfold reversedOrder. symmetry. apply Permutation_rev. Qed.

Lemma encode_field_order_witness :
  exists rest : list string,
    rest ≡ₚ map fst (map_to_list (remainingOf pageFront)) /\
    StronglySorted strLe rest /\
    (MarshalFrontmatter scansNothing tomlFails jsonFails reversedOrder
       YamlDelimiter 1%positive (heapOf pageFront)).1
    = Ok (fieldsText (yamlField scansNothing) pageFront
            (priorityPresent pageFront ++ rest)).
Proof.
  exact (proj1 (encode_field_order scansNothing tomlFails jsonFails reversedOrder
                  1%positive (heapOf pageFront) pageFront
                  reversedOrder_visits_all eq_refl)).
Defined.

(** The same text under two orders of iteration: draft and tags first, then
    aliases and weight. *)
Example yaml_order_of_pageFront :
  let text := Ok ("draft: false" +:+ nl +:+
                  "tags: [" +:+ fmtQ "a" +:+ ", " +:+ fmtQ "b" +:+ "]" +:+ nl +:+
                  "aliases: [" +:+ fmtQ "/old" +:+ "]" +:+ nl +:+
                  "weight: 3" +:+ nl) in
  (MarshalFrontmatter scansNothing tomlFails jsonFails listedOrder
     YamlDelimiter 1%positive (heapOf pageFront)).1 = text /\
  (MarshalFrontmatter scansNothing tomlFails jsonFails reversedOrder
     YamlDelimiter 1%positive (heapOf pageFront)).1 = text.
Proof. vm_compute. done. Qed.

(** ** Sequences are written inline *)





Lemma fieldsText_elem (line : string -> Value -> string) (m : gmap string Value)
    (keys : list string) (k : string) :
  k ∈ keys ->
  exists pre post : string,
    fieldsText line m keys = pre +:+ line k (valueAt m k) +:+ post.
Proof.
  intros (l1 & l2 & ->)%list_elem_of_split.
  exists (fieldsText line m l1), (fieldsText line m l2).
  by rewrite fieldsText_app.
Qed.

Lemma key_in_yaml_order (m : gmap string Value) (k : string) (v : Value) :
  m !! k = Some v ->
  k ∈ priorityPresent m ++ sortStrings (map fst (map_to_list (remainingOf m))).
Proof.
  intros Hk. apply elem_of_app.
  destruct (decide (k ∈ orderedFields)) as [Hin|Hout].
  - left. apply list_elem_of_filter. split; [by exists v|done].
  - right. rewrite sortStrings_perm. apply list_elem_of_fmap.
    exists (k, v). split; [done|]. apply elem_of_map_to_list.
    by apply map_lookup_filter_Some.
Qed.


Lemma fieldsText_line_ext (line line' : string -> Value -> string)
    (m : gmap string Value) (keys : list string) :
  (forall k v, line k v = line' k v) ->
  fieldsText line m keys = fieldsText line' m keys.
Proof.
  intros H. unfold fieldsText. induction keys as [|k keys IH]; simpl; [done|].
  by rewrite H, IH.
Qed.

(** What [addYAMLField] appends is the line of the field. *)
Lemma yamlField_line (scans : string -> bool) (k : string) (v : Value) :
  yamlField scans k v = yamlLine scans k v.
Proof.
  unfold yamlField, yamlLine, yamlValueText, addYAMLField.
  destruct v; cbn [isSequence]; cbv zeta; change ("" +:+ ?x) with x; try done.
  - simpl. by rewrite !append_assoc.
  - simpl. by rewrite !append_assoc.
Qed.

(** What the TOML loop appends is the line of the field. *)
Lemma tomlField_line (tm : string -> Value -> option string) (k : string) (v : Value) :
  tomlField tm k v = tomlLine tm k v.
Proof.
  unfold tomlLine. destruct v; cbn [tomlTyped]; try done;
    unfold tomlField, addTOMLField; change ("" +:+ ?x) with x; try done.
  - simpl. by rewrite !append_assoc.
  - simpl. by rewrite !append_assoc.
Qed.








(** ** Re-encoding a nil value

    The yaml-style text of a nil value is [<nil>], and the text of the
    string [<nil>] is that string in quotes: whether encoding the decoded
    text of a document a second time gives the same bytes depends on how
    the YAML library reads [<nil>] back. *)
Example yaml_text_of_nil (scansAsFloat : string -> bool) :
  yamlField scansAsFloat "title" VNil = "title: <nil>" +:+ nl /\
  yamlField scansAsFloat "title" (VString "<nil>")
  = "title: " +:+ fmtQ "<nil>" +:+ nl.
Proof.
  split; [done|]. unfold yamlField, addYAMLField, formatYAMLValue, needsQuotes.
  by destruct (scansAsFloat "<nil>").
Qed.

(** The examples of the specification for [EvaluateConditions]. *)
Example EvaluateConditions_examples :
  EvaluateConditions {[ "draft" := VBool true ]} "draft=true" = Some true /\
  EvaluateConditions {[ "draft" := VBool true ]} "draft=false" = Some false /\
  EvaluateConditions {[ "tags" := VSlice [VString "beta"; VString "release"] ]}
    "tags contains 'beta'" = Some true /\
  EvaluateConditions {[ "tags" := VSlice [VString "beta"; VString "release"] ]}
    "tags contains 'missing'" = Some false /\
  EvaluateConditions testFront "draft=false OR tags contains beta AND date<2024-01-01"
    = Some true /\
  EvaluateConditions testFront "draft=true AND tags contains gamma" = Some false.
Proof. vm_compute. done. Qed.

(** * Further properties of the code *)

(** ** Slices of strings *)

Lemma length_append (a b : string) :
  String.length (a +:+ b) = (String.length a + String.length b)%nat.
Proof. induction a as [|c a IH]; simpl; [done|by rewrite IH]. Qed.

Lemma sliceFrom_append (a b : string) : sliceFrom (String.length a) (a +:+ b) = b.
Proof. induction a as [|c a IH]; simpl; [by destruct b|done]. Qed.

Lemma sliceTo_append (a b : string) : sliceTo (String.length a) (a +:+ b) = a.
Proof.
  induction a as [|c a IH]; simpl; [by destruct b|by rewrite IH].
Qed.

Lemma sliceTo_length (n : nat) (s : string) :
  (n <= String.length s)%nat -> String.length (sliceTo n s) = n.
Proof.
  revert s. induction n as [|n IH]; intros [|c s]; simpl; intros H; try done; try lia.
  f_equal. apply IH. lia.
Qed.

Lemma sliceTo_sliceFrom (n : nat) (s : string) : sliceTo n s +:+ sliceFrom n s = s.
Proof.
  revert s. induction n as [|n IH]; intros [|c s]; simpl; try done.
  by rewrite IH.
Qed.

Lemma HasPrefix_sliceTo (n : nat) (s p : string) :
  strings.HasPrefix (sliceTo n s) p = true -> strings.HasPrefix s p = true.
Proof.
  revert n s. induction p as [|c p IH]; intros n s; [by rewrite !HasPrefix_nil|].
  destruct n as [|n], s as [|d s]; simpl; try done.
  destruct (Ascii.eqb c d); [apply IH|done].
Qed.

(** The text before the first instance of the separator holds no instance
    of it. *)
Lemma Index_sliceTo_None (s sep : string) (m : nat) :
  sep <> "" -> strings.Index s sep = Some m ->
  strings.Index (sliceTo m s) sep = None.
Proof.
  intros Hsep. revert m. induction s as [|c s IH]; intros m; cbn [strings.Index].
  - destruct (strings.HasPrefix "" sep) eqn:E; [|done].
    intros [= <-]. simpl. by destruct sep.
  - destruct (strings.HasPrefix (String c s) sep) eqn:E.
    + intros [= <-]. simpl. by destruct sep.
    + destruct (strings.Index s sep) as [k|] eqn:Hk; [|done]. intros [= <-].
      cbn [sliceTo strings.Index]. rewrite (IH k eq_refl).
      destruct (strings.HasPrefix (String c (sliceTo k s)) sep) eqn:E'; [|done].
      apply (HasPrefix_sliceTo (S k) (String c s)) in E'. congruence.
Qed.

Lemma before_has_no_separator (sep s : string) :
  sep <> "" -> strings.Contains s sep = true ->
  strings.Contains (before sep s) sep = false.
Proof.
  intros Hsep [m Hm]%Contains_Index. unfold before. rewrite Hm.
  apply Contains_false_Index. by apply Index_sliceTo_None.
Qed.

(** ** File names *)

(** X1. [IsMarkdownFile] holds exactly of the paths that end in [.md],
    the bare name [.md] included; nothing else about the path matters. *)
Theorem IsMarkdownFile_iff (path : string) :
  IsMarkdownFile path = true <-> exists stem : string, path = stem +:+ ".md".
Proof.
  unfold IsMarkdownFile, HasSuffix. split.
  - intros [Hlen Heq]%andb_true_iff. apply String.eqb_eq in Heq.
    exists (sliceTo (String.length path - 3) path).
    transitivity (sliceTo (String.length path - 3) path
                  +:+ sliceFrom (String.length path - 3) path).
    + symmetry. apply sliceTo_sliceFrom.
    + f_equal. exact Heq.
  - intros [stem ->]. rewrite length_append. simpl String.length.
    apply andb_true_iff. split; [apply Nat.leb_le; lia|].
    replace (String.length stem + 3 - 3)%nat with (String.length stem) by lia.
    rewrite sliceFrom_append. reflexivity.
Qed.

(** ** Setting a field *)

Lemma SplitN_2_pieces (s sep : string) :
  sep <> "" -> strings.Contains s sep = true ->
  strings.SplitN s sep 2 = [before sep s; after sep s].
Proof.
  intros Hsep [m Hm]%Contains_Index. unfold before, after, strings.SplitN.
  rewrite Hm. simpl. pose proof (Index_bound _ _ _ Hm) as Hb.
  assert (0 < String.length sep)%nat by (destruct sep; [done|simpl; lia]).
  destruct (String.length s) as [|n] eqn:El; [lia|].
  change (Pos.to_nat 1) with 1%nat. simpl Nat.min. simpl. by rewrite Hm.
Qed.

Lemma before_no_separator (sep s : string) :
  strings.Contains s sep = false -> before sep s = s.
Proof. intros H%Contains_false_Index. unfold before. by rewrite H. Qed.

Lemma ParseSet_unfold (input : string) :
  strings.Contains input "=" = true ->
  ParseSet input =
    let key := strings.TrimSpace (before "=" input) in
    let val := strings.TrimSpace (after "=" input) in
    if String.eqb val "true" then Some (key, VBool true)
    else if String.eqb val "false" then Some (key, VBool false)
    else Some (key, VString val).
Proof.
  intros Hc. unfold ParseSet.
  rewrite (SplitN_2_pieces input "=" ltac:(done) Hc). reflexivity.
Qed.

Lemma ParseSet_panics_iff_aux (input : string) :
  strings.Contains input "=" = false -> ParseSet input = None.
Proof.
  intros Hc. unfold ParseSet. by rewrite (SplitN_2_no_separator _ _ Hc).
Qed.

(** X2. [ParseSet] panics exactly on the inputs that hold no [=]: then
    [SplitN] returns one part and [parts[1]] is out of range. *)
Theorem ParseSet_panics_iff (input : string) :
  ParseSet input = None <-> strings.Contains input "=" = false.
Proof.
  destruct (strings.Contains input "=") eqn:Hc.
  - rewrite (ParseSet_unfold _ Hc). cbv zeta.
    split; [|done]. by repeat case_match.
  - by rewrite ParseSet_panics_iff_aux.
Qed.

Lemma ParseSet_value (input : string) :
  strings.Contains input "=" = true ->
  exists v : Value,
    ParseSet input = Some (strings.TrimSpace (before "=" input), v) /\
    fmtV v = strings.TrimSpace (after "=" input) /\
    (v = VBool true \/ v = VBool false \/
     v = VString (strings.TrimSpace (after "=" input))).
Proof.
  intros Hc. rewrite (ParseSet_unfold _ Hc). cbv zeta.
  destruct (String.eqb _ "true") eqn:Et.
  { apply String.eqb_eq in Et. exists (VBool true). rewrite Et. auto. }
  destruct (String.eqb _ "false") eqn:Ef.
  { apply String.eqb_eq in Ef. exists (VBool false). rewrite Ef. auto. }
  eexists. split; [done|]. auto.
Qed.

Lemma ParseSet_exact (input : string) :
  strings.Contains input "=" = true ->
  ParseSet input
  = Some (strings.TrimSpace (before "=" input),
          if String.eqb (strings.TrimSpace (after "=" input)) "true"
          then VBool true
          else if String.eqb (strings.TrimSpace (after "=" input)) "false"
               then VBool false
               else VString (strings.TrimSpace (after "=" input))).
Proof.
  intros Hc. rewrite (ParseSet_unfold _ Hc). cbv zeta.
  by repeat case_match.
Qed.

(** X3. On an input with [=], [ParseSet] cuts at the first [=] only: the key
    is the text before it, trimmed, and the value is read off all the text
    after it (later [=] signs included), trimmed: the boolean true for the
    text [true], the boolean false for the text [false], and that text as a
    string in every other case; printing the value with [%v] gives the text
    back. *)
Theorem ParseSet_cuts_at_first_equals (input : string) :
  strings.Contains input "=" = true ->
  let key := strings.TrimSpace (before "=" input) in
  let val := strings.TrimSpace (after "=" input) in
  let value :=
    if String.eqb val "true" then VBool true
    else if String.eqb val "false" then VBool false
    else VString val in
  input = before "=" input +:+ "=" +:+ after "=" input /\
  strings.Contains (before "=" input) "=" = false /\
  ParseSet input = Some (key, value) /\
  fmtV value = val.
Proof.
  intros Hc key val value. split; [by apply before_sep_after|].
  split; [by apply before_has_no_separator|].
  split; [by apply ParseSet_exact|].
  subst value. destruct (String.eqb val "true") eqn:Et.
  { by apply String.eqb_eq in Et. }
  destruct (String.eqb val "false") eqn:Ef; [|done].
  by apply String.eqb_eq in Ef.
Qed.

Lemma ParseSet_cuts_at_first_equals_witness :
  ParseSet "draft = true " = Some ("draft", VBool true) /\
  ParseSet "title = a=b " = Some ("title", VString "a=b").
Proof.
  split.
  - exact (proj1 (proj2 (proj2 (ParseSet_cuts_at_first_equals "draft = true " eq_refl)))).
  - exact (proj1 (proj2 (proj2 (ParseSet_cuts_at_first_equals "title = a=b " eq_refl)))).
Defined.

(** ** The equality rule *)

Lemma equality_rule_spec (front : gmap string Value) (clause : string) :
  isDateShape clause = false ->
  strings.Contains clause "contains" = false ->
  strings.Contains clause "=" = true ->
  exists b : bool,
    CheckCondition front clause = Some b /\
    (b = true <->
     exists val, front !! strings.TrimSpace (before "=" clause) = Some val /\
                 fmtV val = strings.TrimSpace (before "=" (after "=" clause))).
Proof.
  intros Hd Hc He. rewrite CheckCondition_dispatch, Hd, Hc, He. unfold equalityRule.
  destruct (Split_pieces clause "=" ltac:(done) He) as [-> ->].
  cbn [mbind option_bind].
  destruct (front !! _) as [val|] eqn:Hk.
  - eexists; split; [done|]. rewrite String.eqb_eq.
    split; [by exists val|]. intros (v' & Hv & ?). by simplify_eq.
  - exists false; split; [done|]. split; [done|]. by intros (? & [= ] & ?).
Qed.

(** X4. For a clause with [=] that has neither the date nor the membership
    shape, the key is the text before the first [=], trimmed, and the
    expected text is what stands between the first and the second [=] (up
    to the end when there is one [=] only), trimmed, quotes and all; the
    check is true iff the key is present and its value prints as that text.
    A missing key is never equal to anything. *)
Theorem equality_rule (front : gmap string Value) (clause : string) :
  isDateShape clause = false ->
  strings.Contains clause "contains" = false ->
  strings.Contains clause "=" = true ->
  exists b : bool,
    CheckCondition front clause = Some b /\
    (b = true <->
     exists val, front !! strings.TrimSpace (before "=" clause) = Some val /\
                 fmtV val = strings.TrimSpace (before "=" (after "=" clause))) /\
    (front !! strings.TrimSpace (before "=" clause) = None -> b = false).
Proof.
  intros Hd Hc He.
  destruct (equality_rule_spec front clause Hd Hc He) as (b & Hb & Hiff).
  exists b. split; [done|]. split; [done|].
  intros Hnone. destruct b; [|done].
  destruct (proj1 Hiff eq_refl) as (val & Hval & _). congruence.
Qed.

Lemma equality_rule_witness :
  exists b : bool,
    CheckCondition testFront "draft = true" = Some b /\
    (b = true <->
     exists val, testFront !! "draft" = Some val /\ fmtV val = "true").
Proof.
  destruct (equality_rule testFront "draft = true" eq_refl eq_refl eq_refl)
    as (b & H1 & H2 & _).
  exists b. split; [exact H1|exact H2].
Defined.

(** X5. A set expression, used as a condition, holds of the document it
    was applied to: after [front[k] = v] with [k, v] from [ParseSet], the
    clause equal to the set expression checks true, provided the expression
    has a single [=] and neither the date nor the membership shape. *)
Theorem set_expression_holds_after_set (front : gmap string Value) (input k : string)
    (v : Value) :
  ParseSet input = Some (k, v) ->
  isDateShape input = false ->
  strings.Contains input "contains" = false ->
  strings.Contains (after "=" input) "=" = false ->
  CheckCondition (<[k := v]> front) input = Some true.
Proof.
  intros Hset Hd Hc Hone.
  assert (strings.Contains input "=" = true) as He.
  { destruct (strings.Contains input "=") eqn:E; [done|].
    apply ParseSet_panics_iff_aux in E. congruence. }
  destruct (ParseSet_value input He) as (v' & Hv' & Hfmt & _).
  rewrite Hset in Hv'. injection Hv' as -> ->.
  destruct (equality_rule_spec (<[strings.TrimSpace (before "=" input) := v']> front)
              input Hd Hc He) as (b & -> & Hiff).
  f_equal. apply Hiff. exists v'. split; [apply lookup_insert_eq|].
  by rewrite (before_no_separator _ _ Hone).
Qed.

Lemma set_expression_holds_after_set_witness :
  CheckCondition (<["draft" := VBool true]> testFront) "draft=true" = Some true.
Proof.
  apply (set_expression_holds_after_set testFront "draft=true" "draft" (VBool true));
    reflexivity.
Defined.

(** ** The expression as a disjunction of conjunctions *)

Lemma allAnds_true (front : gmap string Value) (ands : list string) :
  allAnds front ands = Some true <->
  forall c, c ∈ ands -> CheckCondition front (strings.TrimSpace c) = Some true.
Proof.
  induction ands as [|a ands IH]; cbn [allAnds].
  - split; [intros _ c Hc; by apply elem_of_nil in Hc|done].
  - destruct (CheckCondition_total front (strings.TrimSpace a)) as [[] Ha];
      rewrite Ha; cbn [mbind option_bind].
    + rewrite IH. split.
      * intros H c [->|Hc]%elem_of_cons; [done|by apply H].
      * intros H c Hc. apply H. by right.
    + split; [done|]. intros H. specialize (H a ltac:(left)). congruence.
Qed.

Lemma anyClause_true (front : gmap string Value) (clauses : list string) :
  anyClause front clauses = Some true <->
  exists clause, clause ∈ clauses /\
                 allAnds front (strings.Split clause "&&") = Some true.
Proof.
  induction clauses as [|x clauses IH]; cbn [anyClause].
  - split; [done|]. by intros (? & ?%elem_of_nil & _).
  - destruct (allAnds_total front (strings.Split x "&&")) as [[] Hx];
      rewrite Hx; cbn [mbind option_bind].
    + split; [|done]. intros _. exists x. split; [left|done].
    + rewrite IH. split.
      * intros (c & Hc & H). exists c. split; [by right|done].
      * intros (c & [->|Hc]%elem_of_cons & H); [congruence|by exists c].
Qed.

(** X6. [EvaluateConditions] reads the expression as an OR of ANDs: with
    [" AND "] and [" OR "] replaced by [&&] and [||], the result is true iff
    some piece between [||] has all its pieces between [&&] check true once
    trimmed, and it is false otherwise; AND binds tighter than OR and there
    is no other grouping. *)
Theorem EvaluateConditions_or_of_ands (front : gmap string Value) (cond : string) :
  exists b : bool,
    EvaluateConditions front cond = Some b /\
    (b = true <->
     exists clause,
       clause ∈ strings.Split (normalize cond) "||" /\
       forall c, c ∈ strings.Split clause "&&" ->
                 CheckCondition front (strings.TrimSpace c) = Some true).
Proof.
  unfold EvaluateConditions. fold (normalize cond).
  destruct (anyClause_total front (strings.Split (normalize cond) "||")) as [b Hb].
  exists b. split; [done|].
  transitivity (anyClause front (strings.Split (normalize cond) "||") = Some true).
  - rewrite Hb. split; [by intros ->|by intros [= ->]].
  - rewrite anyClause_true. by setoid_rewrite allAnds_true.
Qed.

(** ** The date rule with a cutoff that parses *)

Lemma Before_irrefl (t : Time) : Before t t = false.
Proof.
  unfold Before. rewrite !Z.ltb_irrefl. simpl. by rewrite !andb_false_r.
Qed.

(** X7. When the text after [<] parses as a date, the date rule is a strict
    comparison of calendar dates: the check is true iff the document has a
    [date] whose printed form parses and lies strictly before the cutoff;
    a document dated on the cutoff itself does not match. *)
Theorem date_rule_is_strict (front : gmap string Value) (clause : string)
    (cutoffTime : Time) :
  isDateShape clause = true ->
  time_Parse (strings.TrimSpace (before "<" (after "<" clause))) = Some cutoffTime ->
  exists b : bool,
    CheckCondition front clause = Some b /\
    (b = true <->
     exists val postTime,
       front !! "date" = Some val /\ time_Parse (fmtV val) = Some postTime /\
       Before postTime cutoffTime = true) /\
    (forall val, front !! "date" = Some val ->
                 time_Parse (fmtV val) = Some cutoffTime -> b = false).
Proof.
  intros Hd Hcut.
  destruct (date_rule_with_parsed_cutoff front clause cutoffTime Hd Hcut)
    as (b & Hb & Hiff).
  exists b. split; [done|]. split; [done|].
  intros val Hval Hparse. destruct b; [|done].
  destruct (proj1 Hiff eq_refl) as (val' & post & Hv & Hp & Hbefore).
  simplify_eq. by rewrite Before_irrefl in Hbefore.
Qed.

Lemma date_rule_is_strict_witness :
  exists b : bool,
    CheckCondition testFront "date < 2023-01-01" = Some b /\
    (forall val, testFront !! "date" = Some val ->
                 time_Parse (fmtV val) = Some (Date 2023 1 1) -> b = false).
Proof.
  destruct (date_rule_is_strict testFront "date < 2023-01-01" (Date 2023 1 1)
              eq_refl eq_refl) as (b & H1 & _ & H2).
  exists b. split; [exact H1|exact H2].
Defined.

(** ** Splitting a document *)

Lemma SplitFrontmatter_fenced (fence rest : string) :
  fence = "---" \/ fence = "+++" ->
  strings.Contains rest fence = true ->
  SplitFrontmatter (fence +:+ nl +:+ rest)
  = Some (fence, before fence rest, after fence rest).
Proof.
  intros [-> | ->] Hc; unfold SplitFrontmatter; simpl; rewrite HasPrefix_nil.
  - rewrite (SplitN_2_pieces rest "---" ltac:(done) Hc). reflexivity.
  - rewrite (SplitN_2_pieces rest "+++" ltac:(done) Hc). reflexivity.
Qed.

Lemma SplitFrontmatter_unfenced (data : string) :
  strings.HasPrefix data ("---" +:+ nl) = false ->
  strings.HasPrefix data ("+++" +:+ nl) = false ->
  SplitFrontmatter data
  = match (if strings.HasPrefix data "{" then strings.Index data ("}" +:+ nl)
           else None) with
    | Some idx =>
        if (0 <? idx)%nat
        then Some ("{", sliceTo (idx + 1) data, sliceFrom (idx + 2) data)
        else Some ("", "", data)
    | None => Some ("", "", data)
    end.
Proof. intros Hy Ht. unfold SplitFrontmatter. by rewrite Hy, Ht. Qed.

(** X8. A document that opens with none of [---] newline, [+++] newline and
    [{], and likewise one that opens with [{] but has no [}] followed by a
    newline, has no frontmatter: the delimiter is empty, the frontmatter is
    nil and the body is the whole input. *)
Theorem SplitFrontmatter_without_frontmatter (data : string) :
  strings.HasPrefix data ("---" +:+ nl) = false ->
  strings.HasPrefix data ("+++" +:+ nl) = false ->
  strings.HasPrefix data "{" = false
  \/ strings.Contains data ("}" +:+ nl) = false ->
  SplitFrontmatter data = Some ("", "", data).
Proof.
  intros Hy Ht Hj. rewrite (SplitFrontmatter_unfenced _ Hy Ht).
  destruct Hj as [-> | Hj%Contains_false_Index]; [done|].
  rewrite Hj. by destruct (strings.HasPrefix data "{").
Qed.

Lemma SplitFrontmatter_without_frontmatter_witness :
  SplitFrontmatter "Body text without fm" = Some ("", "", "Body text without fm").
Proof.
  apply SplitFrontmatter_without_frontmatter; [reflexivity|reflexivity|].
  left. reflexivity.
Defined.

Lemma json_cut (data : string) (idx : nat) :
  strings.Index data ("}" +:+ nl) = Some idx ->
  exists a r : string,
    data = a +:+ "}" +:+ nl +:+ r /\
    sliceTo (idx + 1) data = a +:+ "}" /\
    sliceFrom (idx + 2) data = r /\
    String.length a = idx.
Proof.
  intros Hi. pose proof (Index_split _ _ _ Hi) as Hsplit.
  pose proof (Index_bound _ _ _ Hi) as Hb.
  exists (sliceTo idx data), (sliceFrom (idx + 2) data).
  assert (String.length (sliceTo idx data) = idx) as Hlen.
  { apply sliceTo_length. lia. }
  split; [exact Hsplit|]. split; [|done].
  remember (sliceTo idx data) as a eqn:Ha.
  remember (sliceFrom (idx + String.length ("}" +:+ nl)) data) as r eqn:Hr.
  clear Ha Hr Hi Hb. subst data idx.
  replace (String.length a + 1)%nat with (String.length (a +:+ "}"))
    by (rewrite length_append; done).
  change (a +:+ ("}" +:+ nl) +:+ r) with (a +:+ "}" +:+ (nl +:+ r)).
  rewrite <- (append_assoc a "}" (nl +:+ r)).
  apply sliceTo_append.
Qed.

Lemma HasPrefix_char (c d : ascii) (s : string) :
  strings.HasPrefix (String d s) (String c "") = Ascii.eqb c d.
Proof.
  cbn [strings.HasPrefix]. destruct (Ascii.eqb c d); [apply HasPrefix_nil|done].
Qed.

Lemma HasPrefix_true_inv (s p : string) :
  strings.HasPrefix s p = true -> exists r, s = p +:+ r.
Proof. intros H. eexists. by apply HasPrefix_inv. Qed.

Lemma SplitFrontmatter_cases (data delimiter fm body : string) :
  SplitFrontmatter data = Some (delimiter, fm, body) ->
  (delimiter = "" /\ fm = "" /\ body = data) \/
  ((delimiter = "---" \/ delimiter = "+++") /\
   data = delimiter +:+ nl +:+ fm +:+ delimiter +:+ body /\
   strings.Contains fm delimiter = false) \/
  (delimiter = "{" /\ data = fm +:+ nl +:+ body /\
   strings.HasPrefix fm "{" = true /\ HasSuffix fm "}" = true).
Proof.
  intros H.
  destruct (strings.HasPrefix data ("---" +:+ nl)) eqn:Hy.
  { apply HasPrefix_true_inv in Hy as [rest ->].
    destruct (strings.Contains rest "---") eqn:Hc.
    - pose proof (SplitFrontmatter_fenced "---" rest ltac:(auto) Hc) as Hf.
      pose proof (eq_trans (eq_sym Hf) H) as Heq.
      injection Heq as <- <- <-. right; left. split; [by left|].
      split; [|by apply before_has_no_separator].
      rewrite (before_sep_after "---" rest Hc) at 1. by rewrite !append_assoc.
    - unfold SplitFrontmatter in H. simpl in H.
      by rewrite HasPrefix_nil, (SplitN_2_no_separator _ _ Hc) in H. }
  destruct (strings.HasPrefix data ("+++" +:+ nl)) eqn:Ht.
  { apply HasPrefix_true_inv in Ht as [rest ->].
    destruct (strings.Contains rest "+++") eqn:Hc.
    - pose proof (SplitFrontmatter_fenced "+++" rest ltac:(auto) Hc) as Hf.
      pose proof (eq_trans (eq_sym Hf) H) as Heq.
      injection Heq as <- <- <-. right; left. split; [by right|].
      split; [|by apply before_has_no_separator].
      rewrite (before_sep_after "+++" rest Hc) at 1. by rewrite !append_assoc.
    - unfold SplitFrontmatter in H. simpl in H.
      by rewrite HasPrefix_nil, (SplitN_2_no_separator _ _ Hc) in H. }
  rewrite (SplitFrontmatter_unfenced _ Hy Ht) in H.
  destruct (strings.HasPrefix data "{") eqn:Hj; [|left; by simplify_eq].
  destruct (strings.Index data ("}" +:+ nl)) as [idx|] eqn:Hi; [|left; by simplify_eq].
  destruct (0 <? idx)%nat eqn:Hpos; [|left; by simplify_eq].
  injection H as <- <- <-. right; right. split; [done|].
  destruct (json_cut _ _ Hi) as (a & r & Hdata & Hfm & Hbody & Hlen).
  rewrite Hfm, Hbody. split; [by rewrite Hdata at 1; rewrite !append_assoc|].
  split.
  - destruct a as [|c a].
    + simpl in Hlen. subst idx. done.
    + rewrite Hdata in Hj.
      change (String c a +:+ ?x) with (String c (a +:+ x)) in *.
      by rewrite HasPrefix_char in *.
  - unfold HasSuffix. rewrite length_append. simpl String.length.
    apply andb_true_iff. split; [apply Nat.leb_le; lia|].
    replace (String.length a + 1 - 1)%nat with (String.length a) by lia.
    by rewrite sliceFrom_append.
Qed.

(** X9. [SplitFrontmatter] loses nothing and cuts at the first closing
    fence: when it returns a [---] (or [+++]) delimiter, the input is the
    fence line, the frontmatter, the fence, the body, and the frontmatter
    holds no fence; when it returns [{], the input is the frontmatter, a
    newline, the body; when it returns no delimiter the body is the
    input. *)
Theorem SplitFrontmatter_pieces (data delimiter fm body : string) :
  SplitFrontmatter data = Some (delimiter, fm, body) ->
  (delimiter = "" /\ fm = "" /\ body = data) \/
  ((delimiter = "---" \/ delimiter = "+++") /\
   data = delimiter +:+ nl +:+ fm +:+ delimiter +:+ body /\
   strings.Contains fm delimiter = false) \/
  (delimiter = "{" /\ data = fm +:+ nl +:+ body /\
   strings.HasPrefix fm "{" = true /\ HasSuffix fm "}" = true).
Proof. apply SplitFrontmatter_cases. Qed.

Lemma SplitFrontmatter_pieces_witness :
  let data := "---" +:+ nl +:+ "title: Test" +:+ nl +:+ "---" +:+ nl +:+ "Body text" in
  let fm := "title: Test" +:+ nl in
  let body := nl +:+ "Body text" in
  ("---" = "" /\ fm = "" /\ body = data) \/
  (("---" = "---" \/ "---" = "+++") /\
   data = "---" +:+ nl +:+ fm +:+ "---" +:+ body /\
   strings.Contains fm "---" = false) \/
  ("---" = "{" /\ data = fm +:+ nl +:+ body /\
   strings.HasPrefix fm "{" = true /\ HasSuffix fm "}" = true).
Proof.
  exact (SplitFrontmatter_pieces
           ("---" +:+ nl +:+ "title: Test" +:+ nl +:+ "---" +:+ nl +:+ "Body text")
           "---" ("title: Test" +:+ nl) (nl +:+ "Body text") eq_refl).
Defined.

(** X10. [SplitFrontmatter] panics on no other input than a document that
    opens with a fence line and has no second fence: every other input
    gets its three results. *)
Theorem SplitFrontmatter_panics_iff (data : string) :
  SplitFrontmatter data = None <->
  exists fence rest : string,
    (fence = "---" \/ fence = "+++") /\
    data = fence +:+ nl +:+ rest /\
    strings.Contains rest fence = false.
Proof.
  split.
  - intros H.
    destruct (strings.HasPrefix data ("---" +:+ nl)) eqn:Hy.
    { apply HasPrefix_true_inv in Hy as [rest ->]. exists "---", rest.
      split; [by left|]. split; [done|].
      destruct (strings.Contains rest "---") eqn:Hc; [|done].
      pose proof (SplitFrontmatter_fenced "---" rest ltac:(auto) Hc) as Hf.
      pose proof (eq_trans (eq_sym Hf) H) as Heq. done. }
    destruct (strings.HasPrefix data ("+++" +:+ nl)) eqn:Ht.
    { apply HasPrefix_true_inv in Ht as [rest ->]. exists "+++", rest.
      split; [by right|]. split; [done|].
      destruct (strings.Contains rest "+++") eqn:Hc; [|done].
      pose proof (SplitFrontmatter_fenced "+++" rest ltac:(auto) Hc) as Hf.
      pose proof (eq_trans (eq_sym Hf) H) as Heq. done. }
    rewrite (SplitFrontmatter_unfenced _ Hy Ht) in H.
    by repeat case_match.
  - intros (fence & rest & [-> | ->] & -> & Hc); unfold SplitFrontmatter; simpl;
      by rewrite HasPrefix_nil, (SplitN_2_no_separator _ _ Hc).
Qed.

(** ** The encoder: errors, completeness, independence of the run *)

Section EncoderMore.
Variable scansAsFloat : string -> bool.
Variable toml_Marshal : string -> Value -> option string.
Variable json_other : nat -> Value -> option string.

Lemma yaml_keys_perm (m : gmap string Value) :
  priorityPresent m ++ sortStrings (map fst (map_to_list (remainingOf m)))
  ≡ₚ map fst (map_to_list m).
Proof.
  apply NoDup_Permutation.
  - apply NoDup_app. split; [apply NoDup_filter, NoDup_orderedFields|].
    split; [|rewrite sortStrings_perm; apply NoDup_fst_map_to_list].
    intros k [_ Hk]%list_elem_of_filter. rewrite sortStrings_perm.
    intros ([k' v] & -> & Hkv%elem_of_map_to_list)%list_elem_of_fmap.
    by apply map_lookup_filter_Some in Hkv as [_ Hout].
  - apply NoDup_fst_map_to_list.
  - intros k. split.
    + intros [Hk|Hk]%elem_of_app.
      * apply list_elem_of_filter in Hk as [[v Hv] _].
        apply list_elem_of_fmap. exists (k, v). split; [done|].
        by apply elem_of_map_to_list.
      * rewrite sortStrings_perm in Hk.
        apply list_elem_of_fmap in Hk as ([k' v] & -> & Hkv%elem_of_map_to_list).
        apply map_lookup_filter_Some in Hkv as [Hkv _].
        apply list_elem_of_fmap. exists (k', v). split; [done|].
        by apply elem_of_map_to_list.
    + intros ([k' v] & -> & Hkv%elem_of_map_to_list)%list_elem_of_fmap.
      by apply (key_in_yaml_order m k' v).
Qed.

End EncoderMore.

(** X11. [MarshalFrontmatter] never fails for the yaml-style and the
    toml-style delimiter, whatever the values; for a delimiter that is none
    of [---], [+++] and [{] it returns the error
    [unsupported frontmatter format: <delimiter>] and no bytes. *)
Theorem MarshalFrontmatter_errors
    (scansAsFloat : string -> bool)
    (toml_Marshal : string -> Value -> option string)
    (json_other : nat -> Value -> option string)
    (rangeOrder : nat -> gmap string Value -> list (string * Value))
    (delimiter : string) (front : ref) (h : Heap) (m : gmap string Value) :
  (forall n m', rangeOrder n m' ≡ₚ map_to_list m') ->
  maps h !! front = Some m ->
  let r := (MarshalFrontmatter scansAsFloat toml_Marshal json_other rangeOrder
              delimiter front h).1 in
  (delimiter = YamlDelimiter \/ delimiter = TomlDelimiter ->
   exists bytes, r = Ok bytes) /\
  (delimiter <> YamlDelimiter -> delimiter <> TomlDelimiter ->
   delimiter <> JsonDelimiter ->
   r = Err (errorf ("unsupported frontmatter format: " +:+ delimiter))).
Proof.
  intros Hrange Hm r. subst r. split.
  - intros [-> | ->].
    + erewrite Marshal_yaml; [|done..]. by eexists.
    + erewrite Marshal_toml; [|done..]. by eexists.
  - intros Hy Ht Hj. apply String.eqb_neq in Hy, Ht, Hj.
    erewrite Marshal_other; [|done..]. cbn [fst]. by rewrite Hj.
Qed.

Lemma MarshalFrontmatter_errors_witness :
  (MarshalFrontmatter scansNothing tomlFails jsonFails listedOrder
     "yaml" 1%positive (heapOf pageFront)).1
  = Err (errorf "unsupported frontmatter format: yaml").
Proof.
  apply (proj2 (MarshalFrontmatter_errors scansNothing tomlFails jsonFails listedOrder
                  "yaml" 1%positive (heapOf pageFront) pageFront
                  listedOrder_visits_all eq_refl)); discriminate.
Defined.

(** X12. The yaml-style text holds every field of the document exactly
    once, as the line [key: text] closed by a newline: the keys written, in
    the order written, are a rearrangement of the keys of the map, with no
    key dropped or repeated.  So does the toml-style text, with the line
    [key = text], for every field whose value is a sequence, a string, a
    boolean, a number or a time; for a nil value and a value of another
    type the text is what the TOML library returns for the field, which
    may be nothing. *)
Theorem every_field_is_written_once
    (scansAsFloat : string -> bool)
    (toml_Marshal : string -> Value -> option string)
    (json_other : nat -> Value -> option string)
    (rangeOrder : nat -> gmap string Value -> list (string * Value))
    (front : ref) (h : Heap) (m : gmap string Value) :
  (forall n m', rangeOrder n m' ≡ₚ map_to_list m') ->
  maps h !! front = Some m ->
  let encode := fun delimiter =>
    (MarshalFrontmatter scansAsFloat toml_Marshal json_other rangeOrder
       delimiter front h).1 in
  exists ykeys tkeys : list string,
    ykeys ≡ₚ map fst (map_to_list m) /\ NoDup ykeys /\
    encode YamlDelimiter
    = Ok (concatStrings
            (map (fun k => k +:+ ": "
                           +:+ yamlValueText scansAsFloat (valueAt m k) +:+ nl)
               ykeys)) /\
    tkeys ≡ₚ map fst (map_to_list m) /\ NoDup tkeys /\
    encode TomlDelimiter
    = Ok (concatStrings
            (map (fun k =>
                    if tomlTyped (valueAt m k)
                    then k +:+ " = " +:+ tomlValueText (valueAt m k) +:+ nl
                    else tomlField toml_Marshal k (valueAt m k))
               tkeys)).
Proof.
  intros Hrange Hm encode. subst encode. cbv beta.
  exists (priorityPresent m ++ sortStrings (map fst (map_to_list (remainingOf m)))),
         (sortStrings (map fst (map_to_list m))).
  split; [apply yaml_keys_perm|].
  split; [rewrite yaml_keys_perm; apply NoDup_fst_map_to_list|].
  split.
  { erewrite Marshal_yaml; [|done..]. cbn [fst]. f_equal.
    apply (fieldsText_line_ext (yamlField scansAsFloat) (yamlLine scansAsFloat)),
      yamlField_line. }
  split; [apply sortStrings_perm|].
  split; [rewrite sortStrings_perm; apply NoDup_fst_map_to_list|].
  erewrite Marshal_toml; [|done..]. cbn [fst]. f_equal.
  apply (fieldsText_line_ext (tomlField toml_Marshal) (tomlLine toml_Marshal)),
    tomlField_line.
Qed.

Lemma every_field_is_written_once_witness :
  exists ykeys tkeys : list string,
    ykeys ≡ₚ map fst (map_to_list pageFront) /\ NoDup ykeys /\
    (MarshalFrontmatter scansNothing tomlFails jsonFails listedOrder
       YamlDelimiter 1%positive (heapOf pageFront)).1
    = Ok (concatStrings
            (map (fun k => k +:+ ": "
                           +:+ yamlValueText scansNothing (valueAt pageFront k) +:+ nl)
               ykeys)) /\
    tkeys ≡ₚ map fst (map_to_list pageFront) /\ NoDup tkeys /\
    (MarshalFrontmatter scansNothing tomlFails jsonFails listedOrder
       TomlDelimiter 1%positive (heapOf pageFront)).1
    = Ok (concatStrings
            (map (fun k =>
                    if tomlTyped (valueAt pageFront k)
                    then k +:+ " = " +:+ tomlValueText (valueAt pageFront k) +:+ nl
                    else tomlField tomlFails k (valueAt pageFront k))
               tkeys)).
Proof.
  exact (every_field_is_written_once scansNothing tomlFails jsonFails listedOrder
           1%positive (heapOf pageFront) pageFront listedOrder_visits_all eq_refl).
Defined.

(** X13. The empty document is written as the empty text for the yaml-style
    and the toml-style delimiter and as [{}] for the json-style one. *)
Theorem empty_document_text
    (scansAsFloat : string -> bool)
    (toml_Marshal : string -> Value -> option string)
    (json_other : nat -> Value -> option string)
    (rangeOrder : nat -> gmap string Value -> list (string * Value))
    (front : ref) (h : Heap) :
  (forall n m', rangeOrder n m' ≡ₚ map_to_list m') ->
  maps h !! front = Some ∅ ->
  let encode := fun delimiter =>
    (MarshalFrontmatter scansAsFloat toml_Marshal json_other rangeOrder
       delimiter front h).1 in
  encode YamlDelimiter = Ok "" /\
  encode TomlDelimiter = Ok "" /\
  encode JsonDelimiter = Ok "{}".
Proof.
  intros Hrange Hm encode. subst encode. cbv beta.
  split; [|split].
  - erewrite Marshal_yaml; [|done..]. cbn [fst]. unfold remainingOf.
    by rewrite map_filter_empty, map_to_list_empty.
  - erewrite Marshal_toml; [|done..]. cbn [fst]. by rewrite map_to_list_empty.
  - erewrite Marshal_other; [|done..]. cbn [fst].
    unfold json_MarshalIndent. by rewrite map_to_list_empty.
Qed.

Lemma empty_document_text_witness :
  (MarshalFrontmatter scansNothing tomlFails jsonFails listedOrder
     JsonDelimiter 1%positive (heapOf ∅)).1 = Ok "{}".
Proof.
  exact (proj2 (proj2 (empty_document_text scansNothing tomlFails jsonFails listedOrder
                         1%positive (heapOf ∅) listedOrder_visits_all eq_refl))).
Defined.

(** X14. The bytes [MarshalFrontmatter] returns depend on the delimiter
    and on the entries of the map only: two runs on maps with the same
    entries give the same result, whatever the references, the other maps
    of the heap and the orders in which the [range] loops visit the
    entries. *)
Theorem encoding_depends_on_the_document_only
    (scansAsFloat : string -> bool)
    (toml_Marshal : string -> Value -> option string)
    (json_other : nat -> Value -> option string)
    (rangeOrder1 rangeOrder2 : nat -> gmap string Value -> list (string * Value))
    (delimiter : string) (front1 front2 : ref) (h1 h2 : Heap)
    (m : gmap string Value) :
  (forall n m', rangeOrder1 n m' ≡ₚ map_to_list m') ->
  (forall n m', rangeOrder2 n m' ≡ₚ map_to_list m') ->
  maps h1 !! front1 = Some m ->
  maps h2 !! front2 = Some m ->
  (MarshalFrontmatter scansAsFloat toml_Marshal json_other rangeOrder1
     delimiter front1 h1).1
  = (MarshalFrontmatter scansAsFloat toml_Marshal json_other rangeOrder2
       delimiter front2 h2).1.
Proof.
  intros Hr1 Hr2 Hm1 Hm2.
  destruct (String.eqb delimiter YamlDelimiter) eqn:Hy.
  { by rewrite (Marshal_yaml _ _ _ _ Hr1 _ _ _ _ Hm1 Hy),
               (Marshal_yaml _ _ _ _ Hr2 _ _ _ _ Hm2 Hy). }
  destruct (String.eqb delimiter TomlDelimiter) eqn:Ht.
  { by rewrite (Marshal_toml _ _ _ _ Hr1 _ _ _ _ Hm1 Hy Ht),
               (Marshal_toml _ _ _ _ Hr2 _ _ _ _ Hm2 Hy Ht). }
  by rewrite (Marshal_other _ _ _ _ Hr1 _ _ _ _ Hm1 Hy Ht),
             (Marshal_other _ _ _ _ Hr2 _ _ _ _ Hm2 Hy Ht).
Qed.

Lemma encoding_depends_on_the_document_only_witness :
  (MarshalFrontmatter scansNothing tomlFails jsonFails listedOrder
     YamlDelimiter 1%positive (heapOf pageFront)).1
  = (MarshalFrontmatter scansNothing tomlFails jsonFails reversedOrder
       YamlDelimiter 2%positive (mkHeap {[ 1%positive := ∅; 2%positive := pageFront ]} 5)).1.
Proof.
  apply (encoding_depends_on_the_document_only scansNothing tomlFails jsonFails
           listedOrder reversedOrder YamlDelimiter 1%positive 2%positive
           (heapOf pageFront) (mkHeap {[ 1%positive := ∅; 2%positive := pageFront ]} 5)
           pageFront listedOrder_visits_all reversedOrder_visits_all);
    reflexivity.
Defined.

(** ** Membership, by the kind of the value *)

Lemma membership_unfold (front : gmap string Value) (clause : string) :
  isDateShape clause = false ->
  strings.Contains clause "contains" = true ->
  CheckCondition front clause =
    match front !! strings.TrimSpace (before "contains" clause) with
    | Some val =>
        Some (hasItem (flattenToStrings val)
                (strings.Trim
                   (strings.TrimSpace (before "contains" (after "contains" clause)))
                   quoteChars))
    | None => Some false
    end.
Proof.
  intros Hd Hc. rewrite CheckCondition_dispatch, Hd, Hc. unfold membershipRule.
  by destruct (Split_pieces clause "contains" ltac:(done) Hc) as [-> ->].
Qed.

(** X15. What [key contains needle] means depends on the value under the
    key: for a [[]interface{}] it holds iff some element prints ([%v]) as
    the needle, so that the needle [123] matches the integer 123; for a
    [[]string] iff the needle is an element; for a scalar iff the scalar
    prints as the needle; and for a nil value it never holds. *)
Theorem membership_by_kind_of_value (front : gmap string Value) (clause : string)
    (val : Value) :
  isDateShape clause = false ->
  strings.Contains clause "contains" = true ->
  front !! strings.TrimSpace (before "contains" clause) = Some val ->
  let needle :=
    strings.Trim (strings.TrimSpace (before "contains" (after "contains" clause)))
      quoteChars in
  exists b : bool,
    CheckCondition front clause = Some b /\
    match val with
    | VNil => b = false
    | VSlice items => b = true <-> exists item, item ∈ items /\ fmtV item = needle
    | VStrings items => b = true <-> needle ∈ items
    | _ => b = true <-> fmtV val = needle
    end.
Proof.
  intros Hd Hc Hval needle. rewrite (membership_unfold _ _ Hd Hc), Hval.
  fold needle. eexists. split; [done|].
  assert (forall s, hasItem [s] needle = true <-> s = needle) as Hone.
  { intros s. rewrite hasItem_elem_of, list_elem_of_singleton. by split. }
  destruct val; simpl flattenToStrings; try apply Hone; try done.
  - rewrite hasItem_elem_of, list_elem_of_fmap. split.
    + intros (item & -> & Hitem). by exists item.
    + intros (item & Hitem & <-). by exists item.
  - apply hasItem_elem_of.
Qed.

Lemma membership_by_kind_of_value_witness :
  exists b : bool,
    CheckCondition testFront "tags contains 123" = Some b /\
    (b = true <->
     exists item, item ∈ [VString "beta"; VInt 123; VString "release"] /\
                  fmtV item = "123").
Proof.
  exact (membership_by_kind_of_value testFront "tags contains 123"
           (VSlice [VString "beta"; VInt 123; VString "release"])
           eq_refl eq_refl eq_refl).
Defined.

(** ** The delimiter, from the splitter to the codec *)

(** X16. A delimiter that [SplitFrontmatter] returns, unless it is the
    empty one, is always one the codec knows: [UnmarshalFrontmatter] hands
    the frontmatter to the decoder of that format and does not answer
    [unknown frontmatter format], and [MarshalFrontmatter] does not answer
    [unsupported frontmatter format]. *)
Theorem split_delimiter_is_known
    (yaml_Unmarshal toml_Unmarshal json_Unmarshal :
       string -> GoMap * option error)
    (scansAsFloat : string -> bool)
    (toml_Marshal : string -> Value -> option string)
    (json_other : nat -> Value -> option string)
    (rangeOrder : nat -> gmap string Value -> list (string * Value))
    (data delimiter fm body : string)
    (front : ref) (h : Heap) (m : gmap string Value) :
  (forall n m', rangeOrder n m' ≡ₚ map_to_list m') ->
  maps h !! front = Some m ->
  SplitFrontmatter data = Some (delimiter, fm, body) ->
  delimiter <> "" ->
  UnmarshalFrontmatter yaml_Unmarshal toml_Unmarshal json_Unmarshal delimiter fm
  = (if String.eqb delimiter YamlDelimiter then yaml_Unmarshal fm
     else if String.eqb delimiter TomlDelimiter then toml_Unmarshal fm
     else json_Unmarshal fm) /\
  (MarshalFrontmatter scansAsFloat toml_Marshal json_other rangeOrder
     delimiter front h).1
  <> Err (errorf ("unsupported frontmatter format: " +:+ delimiter)).
Proof.
  intros Hrange Hm Hsplit Hne.
  assert (delimiter = YamlDelimiter \/ delimiter = TomlDelimiter
          \/ delimiter = JsonDelimiter) as Hd.
  { destruct (SplitFrontmatter_cases _ _ _ _ Hsplit)
      as [[? _] | [[[-> | ->] _] | [-> _]]]; auto. done. }
  destruct Hd as [-> | [-> | ->]].
  - split; [done|]. by erewrite Marshal_yaml.
  - split; [done|]. by erewrite Marshal_toml.
  - split; [done|]. erewrite Marshal_other; [|done..]. cbn [fst].
    change (String.eqb JsonDelimiter JsonDelimiter) with true. cbv iota.
    by destruct (json_MarshalIndent json_other m).
Qed.

Lemma split_delimiter_is_known_witness :
  (MarshalFrontmatter scansNothing tomlFails jsonFails listedOrder
     "+++" 1%positive (heapOf pageFront)).1
  <> Err (errorf ("unsupported frontmatter format: " +:+ "+++")).
Proof.
  exact (proj2 (split_delimiter_is_known
                  decodesNil decodesNil decodesNil
                  scansNothing tomlFails jsonFails listedOrder
                  ("+++" +:+ nl +:+ "a = 1" +:+ nl +:+ "+++" +:+ nl)
                  "+++" ("a = 1" +:+ nl) nl
                  1%positive (heapOf pageFront) pageFront
                  listedOrder_visits_all eq_refl eq_refl ltac:(discriminate))).
Defined.

(** ** Linting *)

Section Lint.
Implicit Types (front : GoMap) (m : gmap string Value) (Stats : StatsT).

Lemma entriesOf_deleteEntry front (k : string) :
  entriesOf (deleteEntry front k) = delete k (entriesOf front).
Proof. destruct front; simpl; [by rewrite delete_empty|done]. Qed.

Lemma deleteEntry_nil front (k : string) :
  deleteEntry front k = nilMap <-> front = nilMap.
Proof. by destruct front. Qed.

Lemma lintRequired_nofix reqs front Stats hasIssue :
  lintRequired false reqs front Stats hasIssue
  = Some (front, Stats, hasIssue || existsb (isAbsent (entriesOf front)) reqs).
Proof.
  revert hasIssue. induction reqs as [|req rest IH]; intros hasIssue; simpl.
  - by rewrite orb_false_r.
  - unfold isAbsent at 1. destruct (entriesOf front !! req); rewrite IH; [done|].
    by rewrite orb_true_r.
Qed.

Lemma lintProhibited_nofix blocks front Stats hasIssue :
  lintProhibited false blocks front Stats hasIssue
  = (front, Stats, hasIssue || existsb (isPresent (entriesOf front)) blocks).
Proof.
  revert hasIssue. induction blocks as [|b rest IH]; intros hasIssue; simpl.
  - by rewrite orb_false_r.
  - unfold isPresent at 1, isAbsent. destruct (entriesOf front !! b); rewrite IH;
      [|done].
    by rewrite orb_true_r.
Qed.

(** With [--fix] on a map that was made, the loop over the required fields
    returns: every required field is there afterwards. *)
Lemma lintRequired_fix_made reqs :
  forall m Stats hasIssue,
  exists m' Stats',
    lintRequired true reqs (madeMap m) Stats hasIssue
    = Some (madeMap m', Stats', hasIssue || existsb (isAbsent m) reqs) /\
    (forall k, m' !! k = if decide (k ∈ reqs)
                         then Some (default (VString "") (m !! k))
                         else m !! k) /\
    Processed Stats' = Processed Stats /\ Matched Stats' = Matched Stats /\
    Updated Stats' = Updated Stats /\ LintFails Stats' = LintFails Stats.
Proof.
  induction reqs as [|req rest IH]; intros m Stats hasIssue;
    cbn [lintRequired entriesOf existsb].
  - exists m, Stats. rewrite orb_false_r. split; [done|]. split; [|done].
    intros k. by rewrite decide_False by apply not_elem_of_nil.
  - unfold isAbsent at 1. destruct (m !! req) as [v|] eqn:Hreq.
    + destruct (IH m Stats hasIssue) as (m' & Stats' & -> & Hlook & Hst).
      exists m', Stats'. split; [done|]. split; [|done].
      intros k. rewrite Hlook. destruct (decide (k = req)) as [->|Hne].
      * rewrite (decide_True (P := req ∈ req :: rest)) by left.
        rewrite Hreq. by case_decide.
      * destruct (decide (k ∈ rest)) as [Hin|Hout].
        -- by rewrite decide_True by (by right).
        -- rewrite decide_False; [done|]. by intros [?|?]%elem_of_cons.
    + cbn [assignEntry].
      destruct (IH (<[req := VString ""]> m) (bumpLintFixed Stats) true)
        as (m' & Stats' & -> & Hlook & Hst).
      exists m', Stats'. split; [by rewrite orb_true_r|]. split; [|done].
      intros k. rewrite Hlook. destruct (decide (k = req)) as [->|Hne].
      * rewrite (decide_True (P := req ∈ req :: rest)) by left.
        rewrite lookup_insert_eq, Hreq. by case_decide.
      * rewrite lookup_insert_ne by done.
        destruct (decide (k ∈ rest)) as [Hin|Hout].
        -- by rewrite decide_True by (by right).
        -- rewrite decide_False; [done|]. by intros [?|?]%elem_of_cons.
Qed.

(** With [--fix] on a nil map, the first required field is assigned to the
    nil map: a panic. *)
Lemma lintRequired_fix_nil reqs Stats hasIssue :
  lintRequired true reqs nilMap Stats hasIssue
  = match reqs with
    | [] => Some (nilMap, Stats, hasIssue)
    | _ => None
    end.
Proof. destruct reqs as [|req rest]; [done|]. cbn. by rewrite lookup_empty. Qed.

Lemma lintProhibited_nil doFix blocks Stats hasIssue :
  lintProhibited doFix blocks nilMap Stats hasIssue = (nilMap, Stats, hasIssue).
Proof.
  induction blocks as [|b rest IH]; [done|]. cbn. by rewrite lookup_empty.
Qed.

Lemma lintProhibited_front blocks :
  forall front Stats hasIssue k,
    entriesOf (lintProhibited true blocks front Stats hasIssue).1.1 !! k
    = if decide (k ∈ blocks) then None else entriesOf front !! k.
Proof.
  induction blocks as [|b rest IH]; intros front Stats hasIssue k;
    cbn [lintProhibited].
  - by rewrite decide_False by apply not_elem_of_nil.
  - destruct (entriesOf front !! b) as [v|] eqn:Hb; rewrite IH.
    + rewrite entriesOf_deleteEntry. destruct (decide (k = b)) as [->|Hne].
      * rewrite (decide_True (P := b ∈ b :: rest)) by left.
        rewrite lookup_delete_eq. by case_decide.
      * rewrite lookup_delete_ne by done.
        destruct (decide (k ∈ rest)) as [Hin|Hout].
        -- by rewrite decide_True by (by right).
        -- rewrite decide_False; [done|]. by intros [?|?]%elem_of_cons.
    + destruct (decide (k = b)) as [->|Hne].
      * rewrite (decide_True (P := b ∈ b :: rest)) by left.
        rewrite Hb. by case_decide.
      * destruct (decide (k ∈ rest)) as [Hin|Hout].
        -- by rewrite decide_True by (by right).
        -- rewrite decide_False; [done|]. by intros [?|?]%elem_of_cons.
Qed.

(** The loop over the prohibited fields leaves a nil map nil and a made
    map made. *)
Lemma lintProhibited_keeps_nil doFix blocks :
  forall front Stats hasIssue,
    (lintProhibited doFix blocks front Stats hasIssue).1.1 = nilMap
    <-> front = nilMap.
Proof.
  induction blocks as [|b rest IH]; intros front Stats hasIssue;
    cbn [lintProhibited]; [done|].
  destruct (entriesOf front !! b); [|apply IH].
  destruct doFix; [|apply IH]. rewrite IH. apply deleteEntry_nil.
Qed.

Lemma lintProhibited_issue doFix blocks :
  forall front Stats hasIssue,
    (lintProhibited doFix blocks front Stats hasIssue).2 = true <->
    hasIssue = true \/ exists b, b ∈ blocks /\ is_Some (entriesOf front !! b).
Proof.
  destruct doFix.
  - induction blocks as [|b rest IH]; intros front Stats hasIssue; simpl.
    + split; [by left|]. intros [?|(? & ?%elem_of_nil & _)]; done.
    + destruct (entriesOf front !! b) as [v|] eqn:Hb; rewrite IH.
      * split; [|by left]. intros _. right. exists b. split; [left|by exists v].
      * split.
        -- intros [?|(b' & Hin & Hsome)]; [by left|right].
           exists b'. split; [by right|done].
        -- intros [?|(b' & [->|Hin]%elem_of_cons & Hsome)]; [by left| |].
           ++ rewrite Hb in Hsome. by destruct Hsome.
           ++ right. by exists b'.
  - intros. rewrite lintProhibited_nofix. cbn [snd].
    rewrite orb_true_iff, existsb_exists. split.
    + intros [?|(b & Hin%list_elem_of_In & Hp)]; [by left|right].
      exists b. split; [done|]. unfold isPresent, isAbsent in Hp.
      by destruct (entriesOf front !! b).
    + intros [?|(b & Hin & [v Hv])]; [by left|right].
      exists b. split; [by apply list_elem_of_In|].
      unfold isPresent, isAbsent. by rewrite Hv.
Qed.

Lemma lintProhibited_stats doFix blocks :
  forall front Stats hasIssue,
    let Stats' := (lintProhibited doFix blocks front Stats hasIssue).1.2 in
    Processed Stats' = Processed Stats /\ Matched Stats' = Matched Stats /\
    Updated Stats' = Updated Stats /\ LintFails Stats' = LintFails Stats.
Proof.
  induction blocks as [|b rest IH]; intros front Stats hasIssue; simpl; [done|].
  destruct (entriesOf front !! b); [|apply IH].
  destruct doFix; [|apply IH].
  destruct (IH (deleteEntry front b) (bumpLintFixed Stats) true) as (? & ? & ? & ?).
  done.
Qed.

(** What the loop over the required fields leaves when it returns. *)
Lemma lintRequired_returns doFix reqs front Stats hasIssue front1 Stats1 hasIssue1 :
  lintRequired doFix reqs front Stats hasIssue = Some (front1, Stats1, hasIssue1) ->
  hasIssue1 = hasIssue || existsb (isAbsent (entriesOf front)) reqs /\
  (front1 = nilMap <-> front = nilMap) /\
  (doFix = false -> front1 = front /\ Stats1 = Stats) /\
  (doFix = true ->
   forall k, entriesOf front1 !! k
             = if decide (k ∈ reqs)
               then Some (default (VString "") (entriesOf front !! k))
               else entriesOf front !! k) /\
  Processed Stats1 = Processed Stats /\ Matched Stats1 = Matched Stats /\
  Updated Stats1 = Updated Stats /\ LintFails Stats1 = LintFails Stats.
Proof.
  destruct doFix.
  - destruct front as [|m].
    + rewrite lintRequired_fix_nil. destruct reqs as [|req rest]; [|done].
      intros [= <- <- <-]. cbn [existsb]. rewrite orb_false_r.
      split_and!; try done; intros _ k;
        by rewrite decide_False by apply not_elem_of_nil.
    + destruct (lintRequired_fix_made reqs m Stats hasIssue)
        as (m' & Stats' & -> & Hlook & Hst).
      intros [= <- <- <-]. cbn [entriesOf]. split_and!; try done; tauto.
  - rewrite lintRequired_nofix. intros [= <- <- <-]. by split_and!.
Qed.

(** The loop over the required fields panics with [--fix] on a nil map
    when there is a required field, and in no other case. *)
Lemma lintRequired_panics doFix reqs front Stats hasIssue :
  lintRequired doFix reqs front Stats hasIssue = None <->
  doFix = true /\ front = nilMap /\ reqs <> [].
Proof.
  destruct doFix.
  - destruct front as [|m].
    + rewrite lintRequired_fix_nil. destruct reqs; split; try done.
      by intros (_ & _ & ?).
    + destruct (lintRequired_fix_made reqs m Stats hasIssue)
        as (m' & Stats' & -> & _). split; [done|]. by intros (_ & ? & _).
  - rewrite lintRequired_nofix. split; [done|]. by intros (? & _).
Qed.

End Lint.

Lemma lintAndFix_unfold (cfg : Config) (front : GoMap) (Stats : StatsT) :
  lintAndFix cfg front Stats =
    match lintRequired (Fix cfg) (RequiredFields cfg) front Stats false with
    | None => None
    | Some r =>
        let p := lintProhibited (Fix cfg) (ProhibitedFields cfg) r.1.1 r.1.2 r.2 in
        if p.2 then Some (p.1.1, bumpLintFails p.1.2) else Some (p.1.1, p.1.2)
    end.
Proof.
  unfold lintAndFix. cbv zeta.
  destruct (lintRequired _ _ _ _ _) as [[[f1 s1] i1]|]; [|done]. cbn [fst snd].
  by destruct (lintProhibited _ _ _ _ _) as [[f2 s2] i2].
Qed.

Lemma hasLintIssue_spec (cfg : Config) (m : gmap string Value) :
  hasLintIssue cfg m = true <->
  (exists req, req ∈ RequiredFields cfg /\ m !! req = None) \/
  (exists b, b ∈ ProhibitedFields cfg /\ is_Some (m !! b)).
Proof.
  unfold hasLintIssue. rewrite orb_true_iff, !existsb_exists.
  unfold isPresent, isAbsent. split.
  - intros [(k & Hin%list_elem_of_In & Hk)|(k & Hin%list_elem_of_In & Hk)].
    + left. exists k. split; [done|]. by destruct (m !! k).
    + right. exists k. split; [done|]. by destruct (m !! k).
  - intros [(k & Hin & Hk)|(k & Hin & [v Hv])].
    + left. exists k. split; [by apply list_elem_of_In|]. by rewrite Hk.
    + right. exists k. split; [by apply list_elem_of_In|]. by rewrite Hv.
Qed.

(** [lintAndFix] panics with [--fix] on a nil map when a field is
    required, and in no other case. *)
Lemma lintAndFix_panics (cfg : Config) (front : GoMap) (Stats : StatsT) :
  lintAndFix cfg front Stats = None <->
  Fix cfg = true /\ front = nilMap /\ RequiredFields cfg <> [].
Proof.
  rewrite lintAndFix_unfold, <- (lintRequired_panics _ _ _ Stats false).
  destruct (lintRequired _ _ _ _ _) as [r|]; [|done]. cbv zeta.
  split; [|done]. by destruct (lintProhibited _ _ _ _ _).2.
Qed.

(** What [lintAndFix] leaves when it returns. *)
Lemma lintAndFix_returns (cfg : Config) (front front' : GoMap) (Stats Stats' : StatsT) :
  lintAndFix cfg front Stats = Some (front', Stats') ->
  (front' = nilMap <-> front = nilMap) /\
  (Fix cfg = false -> front' = front /\ LintFixed Stats' = LintFixed Stats) /\
  (Fix cfg = true ->
   forall k, entriesOf front' !! k
             = if decide (k ∈ ProhibitedFields cfg) then None
               else if decide (k ∈ RequiredFields cfg)
                    then Some (default (VString "") (entriesOf front !! k))
                    else entriesOf front !! k) /\
  LintFails Stats'
  = (if hasLintIssue cfg (entriesOf front)
     then incr (LintFails Stats) else LintFails Stats) /\
  Processed Stats' = Processed Stats /\
  Matched Stats' = Matched Stats /\
  Updated Stats' = Updated Stats.
Proof.
  rewrite lintAndFix_unfold.
  destruct (lintRequired _ _ _ _ _) as [[[f1 s1] i1]|] eqn:Hr; [|done].
  apply lintRequired_returns in Hr
    as (Hi1 & Hnil1 & Hnofix1 & Hfix1 & Hp1 & Hm1 & Hu1 & Hf1).
  cbv zeta. cbn [fst snd].
  pose proof (lintProhibited_stats (Fix cfg) (ProhibitedFields cfg) f1 s1 i1)
    as (Hp2 & Hm2 & Hu2 & Hf2).
  pose proof (lintProhibited_keeps_nil (Fix cfg) (ProhibitedFields cfg) f1 s1 i1)
    as Hnil2.
  pose proof (lintProhibited_issue (Fix cfg) (ProhibitedFields cfg) f1 s1 i1)
    as Hissue.
  assert ((lintProhibited (Fix cfg) (ProhibitedFields cfg) f1 s1 i1).2
          = hasLintIssue cfg (entriesOf front)) as Hflag.
  { apply eq_true_iff_eq. rewrite Hissue, hasLintIssue_spec, Hi1. cbn [orb].
    rewrite existsb_exists. unfold isAbsent. split.
    - intros [(k & Hin%list_elem_of_In & Hk)|(b & Hin & Hsome)].
      + left. exists k. split; [done|]. by destruct (entriesOf front !! k).
      + destruct (Fix cfg) eqn:Hfix.
        * rewrite (Hfix1 eq_refl) in Hsome.
          case_decide as Hreq; [|right; by exists b].
          destruct (entriesOf front !! b) as [v|] eqn:Hb; [right; exists b; eauto|].
          left. by exists b.
        * destruct (Hnofix1 eq_refl) as [-> _]. right. by exists b.
    - intros [(k & Hin & Hk)|(b & Hin & Hsome)].
      + left. exists k. split; [by apply list_elem_of_In|]. by rewrite Hk.
      + right. exists b. split; [done|]. destruct (Fix cfg) eqn:Hfix.
        * rewrite (Hfix1 eq_refl). case_decide; [by eexists|done].
        * by destruct (Hnofix1 eq_refl) as [-> _]. }
  assert (Fix cfg = false ->
          lintProhibited (Fix cfg) (ProhibitedFields cfg) f1 s1 i1
          = (front, Stats, (lintProhibited (Fix cfg) (ProhibitedFields cfg) f1 s1 i1).2))
    as Hnofix2.
  { intros Hfix. destruct (Hnofix1 Hfix) as [-> ->]. rewrite Hfix.
    by rewrite lintProhibited_nofix. }
  assert (Fix cfg = true ->
          forall k, entriesOf (lintProhibited (Fix cfg) (ProhibitedFields cfg)
                                 f1 s1 i1).1.1 !! k
                    = if decide (k ∈ ProhibitedFields cfg) then None
                      else if decide (k ∈ RequiredFields cfg)
                           then Some (default (VString "") (entriesOf front !! k))
                           else entriesOf front !! k) as Hfix2.
  { intros Hfix k. rewrite Hfix, lintProhibited_front. by rewrite (Hfix1 Hfix). }
  rewrite Hflag in *.
  destruct (lintProhibited (Fix cfg) (ProhibitedFields cfg) f1 s1 i1)
    as [[f2 s2] i2] eqn:Hp. cbn [fst snd] in *.
  intros H.
  assert (front' = f2 /\
          Stats' = (if hasLintIssue cfg (entriesOf front)
                    then bumpLintFails s2 else s2)) as [-> ->].
  { subst i2. by destruct (hasLintIssue cfg (entriesOf front)); simplify_eq. }
  split; [by rewrite Hnil2|].
  split.
  { intros Hfix. specialize (Hnofix2 Hfix). simplify_eq.
    by destruct (hasLintIssue cfg (entriesOf front)). }
  split; [done|].
  destruct (hasLintIssue cfg (entriesOf front));
    cbn [bumpLintFails LintFails Processed Matched Updated];
    rewrite ?Hp2, ?Hm2, ?Hu2, ?Hf2, ?Hp1, ?Hm1, ?Hu1, ?Hf1; done.
Qed.

(** X17. Without [--fix], [lintAndFix] only counts: the document is left as
    it was, nil or not, [LintFixed] and the other counters are left alone,
    and [LintFails] grows by one iff a required field is missing or a
    prohibited field is there, however many rules are broken. *)
Theorem lint_without_fix_only_counts (cfg : Config) (front : GoMap)
    (Stats : StatsT) :
  Fix cfg = false ->
  lintAndFix cfg front Stats
  = Some (front,
          if hasLintIssue cfg (entriesOf front) then bumpLintFails Stats else Stats) /\
  (hasLintIssue cfg (entriesOf front) = true <->
   (exists req, req ∈ RequiredFields cfg /\ entriesOf front !! req = None) \/
   (exists b, b ∈ ProhibitedFields cfg /\ is_Some (entriesOf front !! b))).
Proof.
  intros Hfix. split; [|apply hasLintIssue_spec].
  rewrite lintAndFix_unfold, Hfix, lintRequired_nofix. cbv zeta. cbn [fst snd].
  rewrite lintProhibited_nofix. cbn [fst snd orb]. unfold hasLintIssue.
  by destruct (_ || _).
Qed.

Lemma lint_without_fix_only_counts_witness :
  lintAndFix (lintConfig false ["title"] ["draft"]) (madeMap testFront) zeroStats
  = Some (madeMap testFront,
          if hasLintIssue (lintConfig false ["title"] ["draft"]) testFront
          then bumpLintFails zeroStats else zeroStats).
Proof.
  exact (proj1 (lint_without_fix_only_counts (lintConfig false ["title"] ["draft"])
                  (madeMap testFront) zeroStats eq_refl)).
Defined.

(** X18. With [--fix], [lintAndFix] on a map that was made returns, and the
    document it leaves holds no prohibited field; a required field that is
    not prohibited is there, with the value it had or the empty string if
    it was missing; every other field is as it was.  A field that is both
    required and prohibited ends up removed.  On a nil map, as an empty
    YAML document decodes to, it panics as soon as a field is required,
    and leaves the nil map alone otherwise. *)
Theorem lint_fix_result (cfg : Config) (Stats : StatsT) :
  Fix cfg = true ->
  (forall m : gmap string Value,
   exists (m' : gmap string Value) (Stats' : StatsT),
     lintAndFix cfg (madeMap m) Stats = Some (madeMap m', Stats') /\
     forall k, m' !! k
               = if decide (k ∈ ProhibitedFields cfg) then None
                 else if decide (k ∈ RequiredFields cfg)
                      then Some (default (VString "") (m !! k))
                      else m !! k) /\
  lintAndFix cfg nilMap Stats
  = (if decide (RequiredFields cfg = []) then Some (nilMap, Stats) else None).
Proof.
  intros Hfix. split.
  - intros m.
    destruct (lintAndFix cfg (madeMap m) Stats) as [[front' Stats']|] eqn:H.
    + pose proof (lintAndFix_returns _ _ _ _ _ H) as (Hnil & _ & Hlook & _).
      destruct front' as [|m']; [discriminate (proj1 Hnil eq_refl)|].
      exists m', Stats'. split; [done|]. exact (Hlook Hfix).
    + by apply lintAndFix_panics in H as (_ & ? & _).
  - case_decide as Hreq.
    + rewrite lintAndFix_unfold, Hfix, Hreq, lintRequired_fix_nil. cbv zeta.
      cbn [fst snd]. by rewrite lintProhibited_nil.
    + apply lintAndFix_panics. by split_and!.
Qed.

Lemma lint_fix_result_witness :
  exists (m' : gmap string Value) (Stats' : StatsT),
    lintAndFix (lintConfig true ["title"; "draft"] ["draft"; "tags"])
      (madeMap testFront) zeroStats = Some (madeMap m', Stats') /\
    forall k, m' !! k
              = if decide (k ∈ ["draft"; "tags"]) then None
                else if decide (k ∈ ["title"; "draft"])
                     then Some (default (VString "") (testFront !! k))
                     else testFront !! k.
Proof.
  exact (proj1 (lint_fix_result (lintConfig true ["title"; "draft"] ["draft"; "tags"])
                  zeroStats eq_refl) testFront).
Defined.

(** X19. One document makes [LintFails] grow by at most one.  [lintAndFix]
    panics (the assignment of a required field to a nil map) exactly when
    [--fix] is set, the map is nil and some field is required; in every
    other case it returns, having added one to [LintFails] iff the document
    it was given misses a required field or holds a prohibited one, and
    without touching [Processed], [Matched] and [Updated]. *)
Theorem lint_fails_once_per_document (cfg : Config) (front : GoMap)
    (Stats : StatsT) :
  (lintAndFix cfg front Stats = None <->
   Fix cfg = true /\ front = nilMap /\ RequiredFields cfg <> []) /\
  (~ (Fix cfg = true /\ front = nilMap /\ RequiredFields cfg <> []) ->
   exists (front' : GoMap) (Stats' : StatsT),
     lintAndFix cfg front Stats = Some (front', Stats') /\
     LintFails Stats'
     = (if hasLintIssue cfg (entriesOf front)
        then incr (LintFails Stats) else LintFails Stats) /\
     Processed Stats' = Processed Stats /\
     Matched Stats' = Matched Stats /\
     Updated Stats' = Updated Stats).
Proof.
  split; [apply lintAndFix_panics|]. intros Hok.
  destruct (lintAndFix cfg front Stats) as [[front' Stats']|] eqn:H.
  - exists front', Stats'. split; [done|].
    by apply lintAndFix_returns in H as (_ & _ & _ & ? & ? & ? & ?).
  - by apply lintAndFix_panics in H.
Qed.

Lemma lint_no_issue_is_identity (cfg : Config) (front : GoMap) (Stats : StatsT) :
  hasLintIssue cfg (entriesOf front) = false ->
  lintAndFix cfg front Stats = Some (front, Stats).
Proof.
  intros Hno. rewrite lintAndFix_unfold.
  apply orb_false_iff in Hno as [Hreq Hpro].
  assert (forall doFix reqs hi,
            existsb (isAbsent (entriesOf front)) reqs = false ->
            lintRequired doFix reqs front Stats hi = Some (front, Stats, hi)) as Hr.
  { intros doFix reqs. induction reqs as [|req rest IH]; intros hi H; [done|].
    simpl in *. apply orb_false_iff in H as [Ha Hrest].
    unfold isAbsent in Ha. destruct (entriesOf front !! req); [by apply IH|done]. }
  assert (forall doFix blocks hi,
            existsb (isPresent (entriesOf front)) blocks = false ->
            lintProhibited doFix blocks front Stats hi = (front, Stats, hi)) as Hp.
  { intros doFix blocks. induction blocks as [|b rest IH]; intros hi H; [done|].
    simpl in *. apply orb_false_iff in H as [Ha Hrest].
    unfold isPresent, isAbsent in Ha.
    destruct (entriesOf front !! b); [done|by apply IH]. }
  rewrite (Hr _ _ _ Hreq). cbv zeta. cbn [fst snd]. by rewrite (Hp _ _ _ Hpro).
Qed.

(** X20. Fixing is done in one run when no field is both required and
    prohibited: the first [lintAndFix] returns on every map that was made
    (and on a nil map when no field is required), and a second [lintAndFix]
    on the document and the counters the first one left finds no issue and
    changes neither. *)
Theorem lint_fix_is_idempotent (cfg : Config) (front : GoMap) (Stats : StatsT) :
  Fix cfg = true ->
  (forall k, k ∈ RequiredFields cfg -> k ∉ ProhibitedFields cfg) ->
  (front <> nilMap \/ RequiredFields cfg = [] ->
   is_Some (lintAndFix cfg front Stats)) /\
  (forall once : GoMap * StatsT,
     lintAndFix cfg front Stats = Some once ->
     lintAndFix cfg once.1 once.2 = Some once).
Proof.
  intros Hfix Hdisj. split.
  - intros Hok. destruct (lintAndFix cfg front Stats) eqn:H; [done|].
    apply lintAndFix_panics in H as (_ & ? & ?). by destruct Hok.
  - intros [front' Stats'] H. cbn [fst snd].
    apply lint_no_issue_is_identity.
    apply lintAndFix_returns in H as (_ & _ & Hlook & _).
    specialize (Hlook Hfix).
    apply not_true_is_false. rewrite hasLintIssue_spec.
    intros [(k & Hin & Hk)|(k & Hin & Hk)]; rewrite Hlook in Hk.
    + rewrite decide_False in Hk by by apply Hdisj.
      by rewrite decide_True in Hk.
    + rewrite decide_True in Hk by done. by destruct Hk.
Qed.

Lemma lint_fix_is_idempotent_witness :
  let cfg := lintConfig true ["title"] ["draft"] in
  is_Some (lintAndFix cfg (madeMap testFront) zeroStats) /\
  forall once : GoMap * StatsT,
    lintAndFix cfg (madeMap testFront) zeroStats = Some once ->
    lintAndFix cfg once.1 once.2 = Some once.
Proof.
  assert (forall k, k ∈ ["title"] -> k ∉ ["draft"]) as Hdisj.
  { intros k Hk Hk'. apply list_elem_of_singleton in Hk, Hk'. congruence. }
  destruct (lint_fix_is_idempotent (lintConfig true ["title"] ["draft"])
              (madeMap testFront) zeroStats eq_refl Hdisj) as [Hsome Hagain].
  split; [apply Hsome; by left|exact Hagain].
Defined.

(** X21. A field that is both required and prohibited can never be
    satisfied: with or without [--fix], the run panics (exactly when
    [--fix] is set and the map is nil) or counts a lint failure, and with
    [--fix] the field is absent afterwards, so that the next run fails
    again. *)
Theorem lint_conflicting_rules_always_fail (cfg : Config)
    (front : GoMap) (Stats : StatsT) (k : string) :
  k ∈ RequiredFields cfg ->
  k ∈ ProhibitedFields cfg ->
  (lintAndFix cfg front Stats = None <-> Fix cfg = true /\ front = nilMap) /\
  (~ (Fix cfg = true /\ front = nilMap) ->
   exists (front' : GoMap) (Stats' : StatsT),
     lintAndFix cfg front Stats = Some (front', Stats') /\
     LintFails Stats' = incr (LintFails Stats) /\
     (Fix cfg = true -> entriesOf front' !! k = None)).
Proof.
  intros Hreq Hpro.
  assert (RequiredFields cfg <> []) as Hne.
  { intros Heq. rewrite Heq in Hreq. by apply elem_of_nil in Hreq. }
  assert (lintAndFix cfg front Stats = None <-> Fix cfg = true /\ front = nilMap)
    as Hpanic.
  { rewrite lintAndFix_panics. tauto. }
  split; [done|]. intros Hok.
  destruct (lintAndFix cfg front Stats) as [[front' Stats']|] eqn:H;
    [|apply lintAndFix_panics in H as (? & ? & _); by destruct Hok].
  exists front', Stats'. split; [done|].
  apply lintAndFix_returns in H as (_ & _ & Hlook & Hfails & _).
  split.
  - rewrite Hfails.
    assert (hasLintIssue cfg (entriesOf front) = true) as ->; [|done].
    apply hasLintIssue_spec. destruct (entriesOf front !! k) as [v|] eqn:Hk.
    + right. exists k. split; [done|by exists v].
    + left. by exists k.
  - intros Hfix. rewrite (Hlook Hfix). by rewrite decide_True.
Qed.

Lemma lint_conflicting_rules_always_fail_witness :
  exists (front' : GoMap) (Stats' : StatsT),
    lintAndFix (lintConfig true ["draft"] ["draft"]) (madeMap testFront) zeroStats
    = Some (front', Stats') /\
    LintFails Stats' = incr (LintFails zeroStats) /\
    (Fix (lintConfig true ["draft"] ["draft"]) = true ->
     entriesOf front' !! "draft" = None).
Proof.
  apply (proj2 (lint_conflicting_rules_always_fail
                  (lintConfig true ["draft"] ["draft"]) (madeMap testFront)
                  zeroStats "draft" ltac:(left) ltac:(left))).
  by intros [_ ?].
Defined.

(** ** The command line: [parseCSV] *)

Lemma Index_char_app (e : string) (c : ascii) (rest : string) :
  strings.Index e (String c "") = None ->
  strings.Index (e +:+ String c rest) (String c "") = Some (String.length e).
Proof.
  induction e as [|d e IH]; cbn [strings.Index String.append String.length].
  - intros _. by rewrite HasPrefix_char, Ascii.eqb_refl.
  - rewrite !HasPrefix_char. destruct (Ascii.eqb c d); [done|].
    destruct (strings.Index e (String c "")) eqn:E; [done|].
    intros _. by rewrite IH.
Qed.

Lemma Split_Join_char (c : ascii) (l : list string) :
  l <> [] ->
  Forall (fun e => strings.Index e (String c "") = None) l ->
  strings.Split (strings.Join l (String c "")) (String c "") = l.
Proof.
  induction l as [|e l IH]; [done|]. intros _ Hall.
  apply Forall_cons in Hall as [He Hall].
  destruct l as [|e' l].
  - simpl. by apply Split_none.
  - change (strings.Join (e :: e' :: l) (String c ""))
      with (e +:+ String c (strings.Join (e' :: l) (String c ""))).
    pose proof (Index_char_app e c (strings.Join (e' :: l) (String c "")) He) as Hi.
    assert (String c "" <> "") as Hsep by done.
    rewrite (Split_cons _ _ _ Hsep Hi).
    rewrite sliceTo_append. f_equal.
    change (e +:+ String c (strings.Join (e' :: l) (String c "")))
      with (e +:+ (String c "" +:+ strings.Join (e' :: l) (String c ""))).
    rewrite <- append_assoc, <- length_append, sliceFrom_append.
    by apply IH.
Qed.

Lemma Join_empty (l : list string) (sep : string) :
  sep <> "" -> strings.Join l sep = "" -> l = [] \/ l = [""].
Proof.
  intros Hsep. destruct l as [|e [|e' l]]; simpl.
  - by left.
  - intros ->. by right.
  - destruct e; [|done]. simpl. by destruct sep.
Qed.

(** X22. [parseCSV] reads back a list written with commas: for items
    without a comma and without white space around them,
    [parseCSV (strings.Join l ",")] is [l].  The one list that cannot be
    written is the list of one empty item, which reads as no item. *)
Theorem parseCSV_Join (l : list string) :
  Forall (fun e => strings.Contains e "," = false /\ strings.TrimSpace e = e) l ->
  l <> [""] ->
  parseCSV (strings.Join l ",") = l.
Proof.
  intros Hall Hne. unfold parseCSV.
  destruct (String.eqb (strings.Join l ",") "") eqn:E.
  - apply String.eqb_eq in E. by apply Join_empty in E as [->| ->].
  - assert (l <> []) as Hnil by (intros ->; by simpl in E).
    rewrite (Split_Join_char "," l); [|done|].
    + clear E Hne Hnil. induction Hall as [|e l [_ He] _ IH]; [done|].
      simpl. by rewrite He, IH.
    + eapply Forall_impl; [exact Hall|]. intros e [He _].
      by apply Contains_false_Index.
Qed.

Lemma parseCSV_Join_witness :
  parseCSV (strings.Join ["title"; "date"; "tags"] ",") = ["title"; "date"; "tags"].
Proof.
  apply (parseCSV_Join ["title"; "date"; "tags"]); [|done].
  repeat constructor.
Defined.

Lemma countByte_app (c : ascii) (a b : string) :
  countByte c (a +:+ b) = (countByte c a + countByte c b)%nat.
Proof. induction a as [|d a IH]; simpl; [done|]. rewrite IH. lia. Qed.

Lemma Index_char_None (c : ascii) (s : string) :
  strings.Index s (String c "") = None -> countByte c s = 0%nat.
Proof.
  induction s as [|d s IH]; [done|]. cbn [strings.Index countByte].
  rewrite HasPrefix_char. destruct (Ascii.eqb c d); [done|].
  destruct (strings.Index s (String c "")); [done|]. intros _. by rewrite IH.
Qed.

Lemma Split_char_length (c : ascii) (s : string) :
  length (strings.Split s (String c "")) = S (countByte c s).
Proof.
  remember (String.length s) as n eqn:Hn. revert s Hn.
  induction n as [n IH] using lt_wf_ind. intros s ->.
  destruct (strings.Index s (String c "")) as [m|] eqn:Hm.
  - assert (String c "" <> "") as Hsep by done.
    rewrite (Split_cons _ _ _ Hsep Hm). cbn [length]. f_equal.
    pose proof (Index_bound _ _ _ Hm) as Hb. cbn [String.length] in Hb.
    rewrite (IH (String.length (sliceFrom (m + String.length (String c "")) s)))
      with (s := sliceFrom (m + String.length (String c "")) s); [| |done].
    + rewrite (Index_split _ _ _ Hm) at 2.
      rewrite !countByte_app.
      rewrite (Index_char_None c (sliceTo m s)) by by apply Index_sliceTo_None.
      simpl. by rewrite Ascii.eqb_refl.
    + rewrite sliceFrom_length. cbn [String.length]. lia.
  - rewrite (Split_none _ _ Hm). by rewrite (Index_char_None _ _ Hm).
Qed.

(** X23. [parseCSV] cuts at every comma and drops nothing: a non-empty
    input with [n] commas gives [n + 1] items, so that a trailing or a
    doubled comma, or blanks alone, give an item that is the empty field
    name. *)
Theorem parseCSV_one_item_per_comma (input : string) :
  input <> "" ->
  length (parseCSV input) = S (countByte "," input).
Proof.
  intros Hne. unfold parseCSV.
  apply String.eqb_neq in Hne. rewrite Hne.
  rewrite length_map. apply Split_char_length.
Qed.

Lemma parseCSV_one_item_per_comma_witness :
  length (parseCSV "title,,date, ") = S (countByte "," "title,,date, ") /\
  parseCSV "title,,date, " = ["title"; ""; "date"; ""].
Proof.
  split; [by apply (parseCSV_one_item_per_comma "title,,date, ")|].
  vm_compute. reflexivity.
Defined.

(** ** The commit message *)

(** X24. The message handed to [git commit -m] is never empty: it is the
    message of [--gc-msg] when one is given, and a text that starts with
    [chore: ] otherwise. *)
Theorem generateCommitMessage_never_empty (cfg : Config) :
  generateCommitMessage cfg <> "" /\
  (if String.eqb (GcMsg cfg) ""
   then strings.HasPrefix (generateCommitMessage cfg) "chore: " = true
   else generateCommitMessage cfg = GcMsg cfg).
Proof.
  unfold generateCommitMessage.
  destruct (String.eqb (GcMsg cfg) "") eqn:E; cbn [negb].
  - cbv zeta. match goal with |- context [(length ?p =? 0)%nat] =>
      destruct (length p =? 0)%nat end; split; try done.
    apply (HasPrefix_app "chore: ").
  - split; [|done]. by apply String.eqb_neq.
Qed.

(** ** The tool: [processFile] and the walk *)

Section ToolFacts.

Variable scansAsFloat : string -> bool.
Variable toml_Marshal : string -> Value -> option string.
Variable json_other : nat -> Value -> option string.
Variable rangeOrder : nat -> gmap string Value -> list (string * Value).
Variable yaml_Unmarshal : string -> GoMap * option error.
Variable toml_Unmarshal : string -> GoMap * option error.
Variable json_Unmarshal : string -> GoMap * option error.
Variable os_ReadFile : string -> option string.
Variable os_WriteFile : string -> string -> bool.
Variable confirm : string -> option bool.

Local Abbreviation decode :=
  (UnmarshalFrontmatter yaml_Unmarshal toml_Unmarshal json_Unmarshal).
Local Abbreviation encode :=
  (encode scansAsFloat toml_Marshal json_other rangeOrder).
Local Abbreviation writeChanges :=
  (writeChanges yaml_Unmarshal toml_Unmarshal json_Unmarshal os_WriteFile confirm).
Local Abbreviation processFile :=
  (processFile scansAsFloat toml_Marshal json_other rangeOrder
     yaml_Unmarshal toml_Unmarshal json_Unmarshal os_ReadFile os_WriteFile confirm).
Local Abbreviation walkFn :=
  (walkFn scansAsFloat toml_Marshal json_other rangeOrder
     yaml_Unmarshal toml_Unmarshal json_Unmarshal os_ReadFile os_WriteFile confirm).
Local Abbreviation Walk :=
  (Walk scansAsFloat toml_Marshal json_other rangeOrder
     yaml_Unmarshal toml_Unmarshal json_Unmarshal os_ReadFile os_WriteFile confirm).

(** What the last lines of [processFile] do to the state. *)
Lemma writeChanges_cases (cfg : Config) (path delimiter fmData body updated : string)
    (w w' : World) (e : option failure) :
  writeChanges cfg path delimiter fmData body updated w = (e, w') ->
  report_Stats w' = report_Stats w /\
  extractedData w' = extractedData w /\
  ((written w' = written w /\
    report_ModifiedFiles w' = report_ModifiedFiles w) \/
   (written w' = written w ++ [(path, buffer delimiter updated body)] /\
    fmData <> updated /\
    DryRun cfg = false /\
    (Yes cfg = true \/ confirm path = Some true) /\
    if os_WriteFile path (buffer delimiter updated body)
    then e = None /\ report_ModifiedFiles w' = report_ModifiedFiles w ++ [path]
    else e = Some fromWriteFile /\
         report_ModifiedFiles w' = report_ModifiedFiles w)).
Proof.
  unfold writeChanges. intros H.
  destruct (String.eqb fmData updated) eqn:Hch; cbn [negb] in H;
    [simplify_eq; by auto|].
  apply String.eqb_neq in Hch.
  destruct (DryRun cfg) eqn:Hdry; cbn [orb andb negb] in H.
  { rewrite andb_false_r in H. repeat case_match; simplify_eq; by auto. }
  rewrite andb_true_r in H.
  destruct (Yes cfg) eqn:Hyes; cbn [negb] in H.
  - destruct (os_WriteFile path _) eqn:Hw; simplify_eq; cbn.
    all: split; [done|]; split; [done|]; right; split_and!; auto.
  - destruct (ShowFrontmatterDiff _ _ _ _ _ _); [simplify_eq; by auto|].
    destruct (confirm path) as [[]|] eqn:Hc; [|simplify_eq; by auto..].
    destruct (os_WriteFile path _) eqn:Hw; simplify_eq; cbn.
    all: split; [done|]; split; [done|]; right; split_and!; auto.
Qed.

(** The ways in which [processFile] returns. *)
Lemma processFile_inv (cfg : Config) (path : string) (w w' : World)
    (e : option failure) :
  processFile cfg path w = Some (e, w') ->
  w' = w \/
  (exists data delimiter fmData body front,
     os_ReadFile path = Some data /\
     SplitFrontmatter data = Some (delimiter, fmData, body) /\
     delimiter <> "" /\
     decode delimiter fmData = (front, None) /\
     ((ExtractKey cfg <> "" /\ e = None /\
       w' = mkWorld (report_Stats w) (report_ModifiedFiles w)
              (extractedData w ++ [extractRow cfg path front]) (written w)) \/
      (ExtractKey cfg = "" /\
       conditionRejects (Condition cfg) (entriesOf front) = Some false /\
       exists front' Stats',
         applyEdits cfg front (report_Stats w) = Some (front', Stats') /\
         ((exists err, encode delimiter front' = Err err /\
                       e = Some (fromHelpers err) /\ w' = setStats w Stats') \/
          (exists updated,
             encode delimiter front' = Ok updated /\
             writeChanges cfg path delimiter fmData body updated
               (setStats w Stats') = (e, w')))))).
Proof.
  unfold processFile. intros H.
  destruct (os_ReadFile path) as [data|] eqn:Hread; [|simplify_eq; by left].
  destruct (SplitFrontmatter data) as [[[delimiter fmData] body]|] eqn:Hsplit;
    [|done].
  destruct (String.eqb delimiter "") eqn:Hd; [simplify_eq; by left|].
  apply String.eqb_neq in Hd.
  destruct (decode delimiter fmData) as [front [err|]] eqn:Hdec;
    [simplify_eq; by left|].
  destruct (String.eqb (ExtractKey cfg) "") eqn:Hx; cbn [negb] in H.
  - apply String.eqb_eq in Hx.
    destruct (conditionRejects (Condition cfg) (entriesOf front)) as [[]|] eqn:Hc;
      [simplify_eq; by left| |done].
    right. exists data, delimiter, fmData, body, front.
    do 4 (split; [done|]). right. do 2 (split; [done|]).
    destruct (applyEdits cfg front (report_Stats w)) as [[front' Stats']|] eqn:Ha;
      [|done].
    exists front', Stats'. split; [done|].
    cbv zeta in H. destruct (encode delimiter front') as [updated|err] eqn:He.
    + right. exists updated. split; [done|]. by simplify_eq.
    + left. exists err. by simplify_eq.
  - apply String.eqb_neq in Hx.
    right. exists data, delimiter, fmData, body, front.
    do 4 (split; [done|]). left. by simplify_eq.
Qed.


Lemma processFile_write_cases (cfg : Config) (path : string) (w w' : World)
    (e : option failure) :
  processFile cfg path w = Some (e, w') ->
  (written w' = written w /\
   report_ModifiedFiles w' = report_ModifiedFiles w) \/
  (exists buf : string,
     written w' = written w ++ [(path, buf)] /\
     DryRun cfg = false /\
     ExtractKey cfg = "" /\
     (Yes cfg = true \/ confirm path = Some true) /\
     if os_WriteFile path buf
     then e = None /\ report_ModifiedFiles w' = report_ModifiedFiles w ++ [path]
     else e = Some fromWriteFile /\
          report_ModifiedFiles w' = report_ModifiedFiles w).
Proof.
  intros H. apply processFile_inv in H
    as [-> | (data & d & fm & body & front & _ & _ & _ & _ & H)]; [by left|].
  destruct H as [(_ & _ & ->) | (Hx & _ & front' & Stats' & _ & H)]; [by left|].
  destruct H as [(err & _ & _ & ->) | (updated & _ & H)]; [by left|].
  apply writeChanges_cases in H as (_ & _ & [H | (Hw & _ & Hdry & Hyes & H)]);
    [by left|].
  right. exists (buffer d updated body). by split_and!.
Qed.

(** X25. One call of [processFile] calls [os.WriteFile] at most once, on
    the file it was given, and only outside [--dry-run] and [--extract],
    with [--yes] or after the answer yes.  The file is added to
    [report.ModifiedFiles] exactly when that write succeeds; when it fails
    its error is returned. *)
Theorem processFile_writes_at_most_once (cfg : Config) (path : string)
    (w w' : World) (e : option failure) :
  processFile cfg path w = Some (e, w') ->
  (written w' = written w /\
   report_ModifiedFiles w' = report_ModifiedFiles w) \/
  (exists buf : string,
     written w' = written w ++ [(path, buf)] /\
     DryRun cfg = false /\
     ExtractKey cfg = "" /\
     (Yes cfg = true \/ confirm path = Some true) /\
     if os_WriteFile path buf
     then e = None /\ report_ModifiedFiles w' = report_ModifiedFiles w ++ [path]
     else e = Some fromWriteFile /\
          report_ModifiedFiles w' = report_ModifiedFiles w).
Proof. apply processFile_write_cases. Qed.

(** X26. A file without frontmatter is passed over whatever the
    configuration: [processFile] returns no error and leaves the counters,
    the extracted rows and the disk as they were. *)
Theorem processFile_skips_files_without_frontmatter (cfg : Config)
    (path data : string) (w : World) :
  os_ReadFile path = Some data ->
  strings.HasPrefix data ("---" +:+ nl) = false ->
  strings.HasPrefix data ("+++" +:+ nl) = false ->
  strings.HasPrefix data "{" = false
  \/ strings.Contains data ("}" +:+ nl) = false ->
  processFile cfg path w = Some (None, w).
Proof.
  intros Hread Hy Ht Hj. unfold processFile. rewrite Hread.
  assert (SplitFrontmatter data = Some ("", "", data)) as ->; [|done].
  rewrite (SplitFrontmatter_unfenced _ Hy Ht).
  destruct Hj as [-> | Hj%Contains_false_Index]; [done|].
  rewrite Hj. by destruct (strings.HasPrefix data "{").
Qed.






(** When [applyEdits] panics: in [lintAndFix], in [ParseSet], or in the
    assignment of [--set] to a nil map. *)
Lemma applyEdits_panics (cfg : Config) (front : GoMap) (Stats : StatsT) :
  applyEdits cfg front Stats = None <->
  (Lint cfg = true /\ Fix cfg = true /\ front = nilMap /\ RequiredFields cfg <> []) \/
  (SetField cfg <> "" /\
   (strings.Contains (SetField cfg) "=" = false \/ front = nilMap)).
Proof.
  unfold applyEdits. cbv zeta.
  assert (forall front1 Stats1,
            (front1 = nilMap <-> front = nilMap) ->
            (if negb (String.eqb (SetField cfg) "")
             then match ParseSet (SetField cfg) with
                  | Some (k, v) =>
                      match assignEntry front1 k v with
                      | Some front2 => Some (front2, bumpUpdated Stats1)
                      | None => None
                      end
                  | None => None
                  end
             else Some (front1, Stats1)) = None <->
            SetField cfg <> "" /\
            (strings.Contains (SetField cfg) "=" = false \/ front = nilMap)) as Hset.
  { intros front1 Stats1 Hnil.
    destruct (String.eqb (SetField cfg) "") eqn:Hs; cbn [negb].
    - apply String.eqb_eq in Hs. split; [done|]. by intros [? _].
    - apply String.eqb_neq in Hs.
      destruct (strings.Contains (SetField cfg) "=") eqn:Hc.
      + rewrite (ParseSet_exact _ Hc). rewrite <- Hnil.
        destruct front1; cbn [assignEntry]; split; try done.
        * intros _. split; [done|by right].
        * by intros [_ [?|?]].
      + rewrite (ParseSet_panics_iff_aux _ Hc). split; [|done].
        intros _. split; [done|by left]. }
  destruct (Lint cfg) eqn:Hlint.
  - destruct (lintAndFix cfg front (bumpMatched Stats)) as [[front1 Stats1]|] eqn:Hl.
    + pose proof (lintAndFix_returns _ _ _ _ _ Hl) as (Hnil & _).
      rewrite (Hset front1 Stats1 Hnil). split; [by right|].
      intros [(_ & Hfix & Hn & Hreq)|?]; [|done].
      assert (lintAndFix cfg front (bumpMatched Stats) = None) as Hcontra
        by (by apply lintAndFix_panics).
      by rewrite Hl in Hcontra.
    + apply lintAndFix_panics in Hl as (Hfix & Hn & Hreq).
      split; [|done]. intros _. by left.
  - rewrite (Hset front (bumpMatched Stats)); [|done]. split; [by right|].
    by intros [(? & _)|?].
Qed.

(** X29. [processFile] panics in three cases and no other: the file opens
    with a fence line that is never closed; or the document is counted as
    matched, [--lint --fix] is set with a required field, and the decoder
    left the map nil (as for an empty YAML document); or the document is
    counted as matched and [--set] is given, and it holds no [=] or the
    decoder left the map nil.  A read error, a decoding error, an encoding
    error, a failed write and an unreadable answer are returned, not
    panics. *)
Theorem processFile_panics_iff (cfg : Config) (path : string) (w : World) :
  processFile cfg path w = None <->
  exists data : string,
    os_ReadFile path = Some data /\
    (SplitFrontmatter data = None \/
     exists delimiter fmData body front,
       SplitFrontmatter data = Some (delimiter, fmData, body) /\
       delimiter <> "" /\
       decode delimiter fmData = (front, None) /\
       ExtractKey cfg = "" /\
       conditionRejects (Condition cfg) (entriesOf front) = Some false /\
       ((Lint cfg = true /\ Fix cfg = true /\ front = nilMap /\
         RequiredFields cfg <> []) \/
        (SetField cfg <> "" /\
         (strings.Contains (SetField cfg) "=" = false \/ front = nilMap)))).
Proof.
  unfold processFile. split.
  - intros H.
    destruct (os_ReadFile path) as [data|] eqn:Hread; [|done].
    exists data. split; [done|].
    destruct (SplitFrontmatter data) as [[[delimiter fmData] body]|] eqn:Hsplit;
      [|by left].
    right. destruct (String.eqb delimiter "") eqn:Hd; [done|].
    apply String.eqb_neq in Hd.
    destruct (decode delimiter fmData) as [front [err|]] eqn:Hdec; [done|].
    exists delimiter, fmData, body, front. do 3 (split; [done|]).
    destruct (String.eqb (ExtractKey cfg) "") eqn:Hx; cbn [negb] in H; [|done].
    apply String.eqb_eq in Hx. split; [done|].
    destruct (conditionRejects (Condition cfg) (entriesOf front)) as [[]|] eqn:Hc;
      [done| |].
    + split; [done|].
      destruct (applyEdits cfg front (report_Stats w)) as [[front' Stats']|] eqn:Ha.
      { cbv zeta in H. by destruct (encode delimiter front'). }
      by apply applyEdits_panics in Ha.
    + exfalso. unfold conditionRejects in Hc.
      destruct (negb _); [|done].
      unfold EvaluateConditions in Hc.
      destruct (anyClause_total (entriesOf front)
        (strings.Split
           (strings.ReplaceAll (strings.ReplaceAll (Condition cfg) " AND " " && ")
              " OR " " || ") "||")) as [b Hb].
      by rewrite Hb in Hc.
  - intros (data & -> & [-> | H]); [done|].
    destruct H as (delimiter & fmData & body & front & -> & Hd & -> & Hx & -> & Hp).
    apply String.eqb_neq in Hd. rewrite Hd, Hx. cbn [String.eqb negb].
    apply (applyEdits_panics cfg front (report_Stats w)) in Hp. by rewrite Hp.
Qed.

Lemma walkFn_cases (cfg : Config) (path : string) (isDir : bool)
    (err : option failure) (w w' : World) (e : option failure) :
  walkFn cfg path isDir err w = Some (e, w') ->
  (written w' = written w /\
   report_ModifiedFiles w' = report_ModifiedFiles w) \/
  (exists buf : string,
     written w' = written w ++ [(path, buf)] /\
     (report_ModifiedFiles w' = report_ModifiedFiles w ++ [path]
      \/ report_ModifiedFiles w' = report_ModifiedFiles w /\ e <> None) /\
     IsMarkdownFile path = true /\ isDir = false /\ err = None /\
     DryRun cfg = false /\ ExtractKey cfg = "").
Proof.
  unfold walkFn. destruct err as [err|]; [intros; simplify_eq; by left|].
  destruct isDir; cbn [negb andb]; [intros; simplify_eq; by left|].
  destruct (IsMarkdownFile path) eqn:Hmd; [|intros; simplify_eq; by left].
  intros [H | (buf & Hw & Hdry & Hx & _ & H)]%processFile_write_cases; [by left|].
  right. exists buf. split; [done|].
  split; [|done].
  destruct (os_WriteFile path buf); destruct H as [-> H]; [by left|by right].
Qed.

(** X30. The walk of [RunTool] writes to no file but the markdown files it
    visits: every call of [os.WriteFile] is on a path that ends in [.md],
    that the walk handed over as a file and without an error, and there is
    none under [--dry-run] or [--extract].  The files added to
    [report.ModifiedFiles] are among the files written, in the same
    order. *)
Theorem Walk_writes_only_markdown_files (cfg : Config)
    (visits : list (string * bool * option failure)) (w w' : World)
    (e : option failure) :
  Walk cfg visits w = Some (e, w') ->
  exists (files : list (string * string)) (modified : list string),
    written w' = written w ++ files /\
    report_ModifiedFiles w' = report_ModifiedFiles w ++ modified /\
    modified `sublist_of` files.*1 /\
    (forall p, p ∈ files.*1 ->
       IsMarkdownFile p = true /\ (p, false, None) ∈ visits) /\
    (files <> [] -> DryRun cfg = false /\ ExtractKey cfg = "").
Proof.
  revert w. induction visits as [|[[path isDir] err] rest IH]; intros w H.
  { cbn in H. simplify_eq. exists [], []. rewrite !app_nil_r.
    split_and!; try done. intros p Hp. by apply elem_of_nil in Hp. }
  cbn [Walk] in H.
  destruct (walkFn cfg path isDir err w) as [[e1 w1]|] eqn:Hfn; [|done].
  assert (exists files modified,
            written w' = written w1 ++ files /\
            report_ModifiedFiles w' = report_ModifiedFiles w1 ++ modified /\
            modified `sublist_of` files.*1 /\
            (forall p, p ∈ files.*1 ->
               IsMarkdownFile p = true /\ (p, false, None) ∈ rest) /\
            (files <> [] -> DryRun cfg = false /\ ExtractKey cfg = ""))
    as (files & modified & Hw & Hm & Hsub & Hin & Hmode).
  { destruct e1 as [err1|]; [|by apply IH].
    simplify_eq. exists [], []. rewrite !app_nil_r.
    split_and!; try done. intros p Hp. by apply elem_of_nil in Hp. }
  apply walkFn_cases in Hfn
    as [[Hw1 Hm1] | (buf & Hw1 & Hm1 & Hmd & -> & -> & Hdry & Hx)].
  - exists files, modified. rewrite Hw, Hm, Hw1, Hm1.
    split_and!; try done.
    intros p Hp. destruct (Hin p Hp) as [? ?]. split; [done|by right].
  - assert (forall p, p ∈ ((path, buf) :: files).*1 ->
              IsMarkdownFile p = true /\ (p, false, None) ∈ (path, false, None) :: rest)
      as Hin'.
    { intros p [-> | Hp]%elem_of_cons; [split; [done|by left]|].
      destruct (Hin p Hp) as [? ?]. split; [done|by right]. }
    destruct Hm1 as [Hm1 | [Hm1 _]].
    + exists ((path, buf) :: files), (path :: modified).
      rewrite Hw, Hm, Hw1, Hm1, <- !app_assoc.
      split_and!; try done. by apply sublist_skip.
    + exists ((path, buf) :: files), modified.
      rewrite Hw, Hm, Hw1, Hm1, <- !app_assoc.
      split_and!; try done. by apply sublist_cons.
Qed.

End ToolFacts.

(** The third case of the panic, on a file whose frontmatter decodes to
    the nil map: [--set] assigns to it.  Without [--set] and [--fix] the
    same file is processed. *)
Example processFile_panics_on_nil_map :
  processFile scansNothing tomlFails jsonFails listedOrder
    decodesNil decodesNil decodesNil
    (readsAs ("---" +:+ nl +:+ "---" +:+ nl +:+ "Body")) writeSucceeds answersYes
    (setConfig "draft=false" false true) "post.md" emptyWorld = None /\
  processFile scansNothing tomlFails jsonFails listedOrder
    decodesNil decodesNil decodesNil
    (readsAs ("---" +:+ nl +:+ "---" +:+ nl +:+ "Body")) writeSucceeds answersYes
    (lintConfig true ["title"] []) "post.md" emptyWorld = None /\
  processFile scansNothing tomlFails jsonFails listedOrder
    decodesNil decodesNil decodesNil
    (readsAs ("---" +:+ nl +:+ "---" +:+ nl +:+ "Body")) writeSucceeds answersYes
    (lintConfig false ["title"] []) "post.md" emptyWorld
  = Some (None, mkWorld (mkStats 0 1 0 1 0) [] [] []).
Proof. vm_compute. done. Qed.

Lemma processFile_writes_at_most_once_witness :
  exists (e : option failure) (w' : World),
    processFile scansNothing tomlFails jsonFails listedOrder
      (decodesTo draftFront) (decodesTo draftFront) (decodesTo draftFront)
      (readsAs draftFile) writeSucceeds answersYes
      (setConfig "draft=false" false true) "post.md" emptyWorld = Some (e, w') /\
    ((written w' = written emptyWorld /\
      report_ModifiedFiles w' = report_ModifiedFiles emptyWorld) \/
     (exists buf : string,
        written w' = written emptyWorld ++ [("post.md", buf)] /\
        DryRun (setConfig "draft=false" false true) = false /\
        ExtractKey (setConfig "draft=false" false true) = "" /\
        (Yes (setConfig "draft=false" false true) = true
         \/ answersYes "post.md" = Some true) /\
        if writeSucceeds "post.md" buf
        then e = None /\
             report_ModifiedFiles w' = report_ModifiedFiles emptyWorld ++ ["post.md"]
        else e = Some fromWriteFile /\
             report_ModifiedFiles w' = report_ModifiedFiles emptyWorld)).
Proof.
  eexists _, _. split; [reflexivity|].
  apply (processFile_writes_at_most_once scansNothing tomlFails jsonFails listedOrder
           (decodesTo draftFront) (decodesTo draftFront) (decodesTo draftFront)
           (readsAs draftFile) writeSucceeds answersYes
           (setConfig "draft=false" false true) "post.md" emptyWorld).
  reflexivity.
Defined.

Lemma processFile_skips_files_without_frontmatter_witness :
  processFile scansNothing tomlFails jsonFails listedOrder
    (decodesTo draftFront) (decodesTo draftFront) (decodesTo draftFront)
    (readsAs "Body text without fm") writeSucceeds answersYes
    (setConfig "draft=false" false true) "post.md" emptyWorld
  = Some (None, emptyWorld).
Proof.
  apply (processFile_skips_files_without_frontmatter scansNothing tomlFails
           jsonFails listedOrder
           (decodesTo draftFront) (decodesTo draftFront) (decodesTo draftFront)
           (readsAs "Body text without fm") writeSucceeds answersYes
           (setConfig "draft=false" false true) "post.md" "Body text without fm"
           emptyWorld);
    [reflexivity|reflexivity|reflexivity|left; reflexivity].
Defined.


Lemma Walk_writes_only_markdown_files_witness :
  exists (e : option failure) (w' : World),
    Walk scansNothing tomlFails jsonFails listedOrder
      (decodesTo draftFront) (decodesTo draftFront) (decodesTo draftFront)
      (readsAs draftFile) writeSucceeds answersYes
      (setConfig "draft=false" false true) sampleVisits emptyWorld = Some (e, w') /\
    exists (files : list (string * string)) (modified : list string),
      written w' = written emptyWorld ++ files /\
      report_ModifiedFiles w' = report_ModifiedFiles emptyWorld ++ modified /\
      modified `sublist_of` files.*1 /\
      (forall p, p ∈ files.*1 ->
         IsMarkdownFile p = true /\ (p, false, None) ∈ sampleVisits) /\
      (files <> [] ->
       DryRun (setConfig "draft=false" false true) = false /\
       ExtractKey (setConfig "draft=false" false true) = "").
Proof.
  eexists _, _. split; [reflexivity|].
  eapply (Walk_writes_only_markdown_files scansNothing tomlFails jsonFails listedOrder
           (decodesTo draftFront) (decodesTo draftFront) (decodesTo draftFront)
           (readsAs draftFile) writeSucceeds answersYes
           (setConfig "draft=false" false true) sampleVisits emptyWorld).
  reflexivity.
Defined.

(** What [applyEdits] leaves in the counters when it returns. *)
Lemma applyEdits_counts (cfg : Config) (front front' : GoMap) (Stats Stats' : StatsT) :
  applyEdits cfg front Stats = Some (front', Stats') ->
  Processed Stats' = Processed Stats /\
  Matched Stats' = incr (Matched Stats) /\
  Updated Stats'
  = (if String.eqb (SetField cfg) "" then Updated Stats else incr (Updated Stats)) /\
  LintFails Stats'
  = (if Lint cfg && hasLintIssue cfg (entriesOf front)
     then incr (LintFails Stats) else LintFails Stats) /\
  (Lint cfg && Fix cfg = false -> LintFixed Stats' = LintFixed Stats).
Proof.
  unfold applyEdits. cbv zeta. intros H.
  assert (exists front1 Stats1,
            (if Lint cfg then lintAndFix cfg front (bumpMatched Stats)
             else Some (front, bumpMatched Stats)) = Some (front1, Stats1) /\
            Stats' = (if String.eqb (SetField cfg) "" then Stats1
                      else bumpUpdated Stats1)) as (front1 & Stats1 & Hl & ->).
  { destruct (if Lint cfg then _ else _) as [[front1 Stats1]|]; [|done].
    exists front1, Stats1. split; [done|].
    destruct (String.eqb (SetField cfg) ""); cbn [negb] in H; [by simplify_eq|].
    by repeat case_match; simplify_eq. }
  assert (Processed Stats1 = Processed Stats /\
          Matched Stats1 = incr (Matched Stats) /\
          Updated Stats1 = Updated Stats /\
          LintFails Stats1
          = (if Lint cfg && hasLintIssue cfg (entriesOf front)
             then incr (LintFails Stats) else LintFails Stats) /\
          (Lint cfg && Fix cfg = false -> LintFixed Stats1 = LintFixed Stats))
    as (Hp & Hm & Hu & Hf & Hx).
  { destruct (Lint cfg); cbn [andb] in *; [|by simplify_eq].
    apply lintAndFix_returns in Hl as (_ & Hnofix & _ & Hf & Hp & Hm & Hu).
    split_and!; try done. intros Hfix. by destruct (Hnofix Hfix). }
  destruct (String.eqb (SetField cfg) "");
    cbn [bumpUpdated Processed Matched Updated LintFails LintFixed];
    rewrite ?Hu; by split_and!.
Qed.

(** X28. A matched document is counted whatever happens to its file: when
    [processFile] returns on a document that decodes, outside [--extract],
    and that the condition does not reject, [Matched] has grown by one,
    [Updated] has grown by one iff [--set] is given, [LintFails] has grown
    by one iff [--lint] is set and the document breaks a rule, and
    [Processed] is untouched; this holds under [--dry-run] as without it,
    whether or not the frontmatter changes, whatever is answered, and when
    the encoder, the diff or the write fails. *)
Theorem matched_documents_are_counted
    (scansAsFloat : string -> bool)
    (toml_Marshal : string -> Value -> option string)
    (json_other : nat -> Value -> option string)
    (rangeOrder : nat -> gmap string Value -> list (string * Value))
    (yaml_Unmarshal toml_Unmarshal json_Unmarshal : string -> GoMap * option error)
    (os_ReadFile : string -> option string)
    (os_WriteFile : string -> string -> bool)
    (confirm : string -> option bool)
    (cfg : Config) (path data delimiter fmData body : string) (front : GoMap)
    (w w' : World) (e : option failure) :
  processFile scansAsFloat toml_Marshal json_other rangeOrder
    yaml_Unmarshal toml_Unmarshal json_Unmarshal os_ReadFile os_WriteFile confirm
    cfg path w = Some (e, w') ->
  os_ReadFile path = Some data ->
  SplitFrontmatter data = Some (delimiter, fmData, body) ->
  delimiter <> "" ->
  UnmarshalFrontmatter yaml_Unmarshal toml_Unmarshal json_Unmarshal delimiter fmData
  = (front, None) ->
  ExtractKey cfg = "" ->
  conditionRejects (Condition cfg) (entriesOf front) = Some false ->
  Processed (report_Stats w') = Processed (report_Stats w) /\
  Matched (report_Stats w') = incr (Matched (report_Stats w)) /\
  Updated (report_Stats w')
  = (if String.eqb (SetField cfg) "" then Updated (report_Stats w)
     else incr (Updated (report_Stats w))) /\
  LintFails (report_Stats w')
  = (if Lint cfg && hasLintIssue cfg (entriesOf front)
     then incr (LintFails (report_Stats w)) else LintFails (report_Stats w)) /\
  (Lint cfg && Fix cfg = false ->
   LintFixed (report_Stats w') = LintFixed (report_Stats w)).
Proof.
  intros H Hread Hsplit Hd Hdec Hx Hc.
  unfold processFile in H. rewrite Hread, Hsplit in H.
  apply String.eqb_neq in Hd. rewrite Hd, Hdec, Hx, Hc in H.
  cbn [String.eqb negb] in H.
  destruct (applyEdits cfg front (report_Stats w)) as [[front' Stats']|] eqn:Ha;
    [|done].
  apply applyEdits_counts in Ha. cbv zeta in H.
  destruct (encode _ _ _ _ delimiter front') as [updated|err].
  - destruct (writeChanges _ _ _ _ _ _ _ _ _ _ _ _) as [e1 w1] eqn:Hw.
    apply writeChanges_cases in Hw as (Hs & _). simplify_eq. by rewrite Hs.
  - by simplify_eq.
Qed.

Lemma matched_documents_are_counted_witness :
  let cfg := setConfig "draft=false" true false in
  exists (e : option failure) (w' : World),
    processFile scansNothing tomlFails jsonFails listedOrder
      (decodesTo draftFront) (decodesTo draftFront) (decodesTo draftFront)
      (readsAs draftFile) writeSucceeds answersYes cfg "post.md" emptyWorld
    = Some (e, w') /\
    written w' = [] /\
    (Processed (report_Stats w') = Processed (report_Stats emptyWorld) /\
     Matched (report_Stats w') = incr (Matched (report_Stats emptyWorld)) /\
     Updated (report_Stats w')
     = (if String.eqb (SetField cfg) "" then Updated (report_Stats emptyWorld)
        else incr (Updated (report_Stats emptyWorld))) /\
     LintFails (report_Stats w')
     = (if Lint cfg && hasLintIssue cfg (entriesOf (madeMap draftFront))
        then incr (LintFails (report_Stats emptyWorld))
        else LintFails (report_Stats emptyWorld)) /\
     (Lint cfg && Fix cfg = false ->
      LintFixed (report_Stats w') = LintFixed (report_Stats emptyWorld))).
Proof.
  intros cfg. eexists _, _. split; [reflexivity|]. split; [reflexivity|].
  eapply (matched_documents_are_counted scansNothing tomlFails jsonFails
            listedOrder
            (decodesTo draftFront) (decodesTo draftFront) (decodesTo draftFront)
            (readsAs draftFile) writeSucceeds answersYes
            cfg "post.md" draftFile
            "---" ("draft: true" +:+ nl) (nl +:+ "Body") (madeMap draftFront)
            emptyWorld);
    [reflexivity|reflexivity|reflexivity|discriminate|reflexivity|reflexivity
    |reflexivity].
Defined.
